(** * VideoChat: signaling server and client negotiation logic

    A shallow embedding of [src/Backend/server.js] (the Socket.IO signaling
    server: room registry and message relay) and of
    [src/Backend/useWebRTC.ts] (the client hook driving one
    [RTCPeerConnection]), with the properties of the specification stated
    and settled against them. *)

From stdpp Require Import gmap strings list pretty.


(** Session descriptions and ICE candidates travel through the server as
    uninterpreted JSON values. *)
Definition payload := string.

(** JavaScript truthiness of a possibly undefined string: [undefined] and the
    empty string are falsy. *)
Definition truthy (o : option string) : option string :=
  match o with
  | Some s => if decide (s = "") then None else Some s
  | None => None
  end.

(* ===================================================================== *)
(** * The signaling server ([server.js]) *)
(* ===================================================================== *)

Module Server.

(** Entries of [room.users]. [joinedAt] is the clock reading of [new Date()]. *)
Record user := User {
  user_id : string;
  user_name : string;
  user_joinedAt : nat
}.

(** Values of the [rooms] map. *)
Record room := Room {
  room_id : string;
  room_users : list user;
  room_createdAt : nat
}.

(** What the server keeps on a connected socket object: the two properties
    the handlers assign ([socket.roomId], [socket.userName]) and the Socket.IO
    rooms entered with [socket.join]. Every socket is, besides, in the room
    named by its own id. *)
Record socket := Socket {
  roomId : option string;
  userName : option string;
  joined : list string
}.

Record state := State {
  rooms : gmap string room;
  sockets : gmap string socket
}.

#[export] Instance user_eq_dec : EqDecision user.
Proof. solve_decision. Defined.
#[export] Instance room_eq_dec : EqDecision room.
Proof. solve_decision. Defined.
#[export] Instance socket_eq_dec : EqDecision socket.
Proof. solve_decision. Defined.

Definition initial : state := State ∅ ∅.

(** Events a client emits to the server. [create_room] carries the two
    readings the handler takes from its environment: the base-36 digits of
    [Math.random()] after the leading ["0."], and the clock. *)
Inductive event :=
| create_room (digits : string) (now : nat)
| join_room (rid : string) (uname : option string) (now : nat)
| offer (o : payload) (targetId : string)
| answer (a : payload) (targetId : string)
| ice_candidate (c : payload) (targetId : string)
| user_status (status : payload)
| disconnect.

(** Events the server emits to a client. [room_created] is the
    acknowledgement callback of [create-room]. *)
Inductive emitted :=
| error (message : string)
| room_created (rid : string)
| room_joined (rid : string) (users : list user) (isInitiator : bool)
| user_joined (userId uname : string) (usersCount : nat)
| offer_from (o : payload) (senderId : string)
| answer_from (a : payload) (senderId : string)
| ice_candidate_from (c : payload) (senderId : string)
| user_status_update (userId : string) (status : payload)
| user_left (userId : string) (uname : option string) (usersCount : nat).

#[export] Instance emitted_eq_dec : EqDecision emitted.
Proof. solve_decision. Defined.

(** A delivery: the receiving socket id and the event it gets. *)
Definition delivery : Type := string * emitted.

(** [Math.random().toString(36).substr(2, 9)]: at most nine characters
    starting after ["0."]. *)
Definition generateRoomId (digits : string) : string :=
  String.substring 0 9 digits.

(** Membership of socket [sid] in the Socket.IO room [r]. *)
Definition in_room (r sid : string) (sk : socket) : bool :=
  bool_decide (sid = r) || bool_decide (r ∈ joined sk).

(** [socket.to(r)]: every connected socket in room [r] except the sender. *)
Definition to (st : state) (sender r : string) : list string :=
  (filter (λ p, p.1 ≠ sender ∧ in_room r p.1 p.2 = true)
          (map_to_list (sockets st))).*1.

Definition broadcast (st : state) (sender r : string) (e : emitted)
  : list delivery :=
  (λ s, (s, e)) <$> to st sender r.

(** [userName || `User ${n + 1}`] *)
Definition display_name (uname : option string) (n : nat) : string :=
  match truthy uname with
  | Some s => s
  | None => "User " +:+ pretty (n + 1)
  end.

Definition on_create_room (st : state) (sid : string) (digits : string)
    (now : nat) : state * list delivery :=
  let rid := generateRoomId digits in
  (State (<[rid := Room rid [] now]> (rooms st)) (sockets st),
   [(sid, room_created rid)]).

Definition on_join_room (st : state) (sid : string) (sk : socket)
    (rid : string) (uname : option string) (now : nat)
  : state * list delivery :=
  match rooms st !! rid with
  | None => (st, [(sid, error "Room not found")])
  | Some r =>
    match find (λ u, bool_decide (user_id u = sid)) (room_users r) with
    | Some _ =>
      (st, [(sid, room_joined rid (room_users r)
                    match room_users r with
                    | u :: _ => bool_decide (user_id u = sid)
                    | [] => false (* not reached: [find] has succeeded *)
                    end)])
    | None =>
      if decide (2 ≤ length (room_users r)) then
        (st, [(sid, error "Room is full")])
      else
        let u := User sid (display_name uname (length (room_users r))) now in
        let us := room_users r ++ [u] in
        let st' :=
          State (<[rid := Room (room_id r) us (room_createdAt r)]> (rooms st))
                (<[sid := Socket (Some rid) (Some (user_name u))
                                 (joined sk ++ [rid])]> (sockets st)) in
        (st', broadcast st' sid rid (user_joined sid (user_name u) (length us))
              ++ [(sid, room_joined rid us (bool_decide (length us = 1)))])
    end
  end.

(** The three relay handlers share one shape. *)
Definition relay (st : state) (sid targetId : string) (e : emitted)
  : state * list delivery :=
  (st, broadcast st sid targetId e).

Definition on_user_status (st : state) (sid : string) (sk : socket)
    (status : payload) : state * list delivery :=
  match truthy (roomId sk) with
  | Some rid => (st, broadcast st sid rid (user_status_update sid status))
  | None => (st, [])
  end.

(** The socket has left every Socket.IO room when the handler runs, and is
    gone from the connected sockets afterwards. *)
Definition on_disconnect (st : state) (sid : string) (sk : socket)
  : state * list delivery :=
  let gone := delete sid (sockets st) in
  match truthy (roomId sk) with
  | Some rid =>
    match rooms st !! rid with
    | Some r =>
      let us := filter (λ u, user_id u ≠ sid) (room_users r) in
      let out := broadcast st sid rid (user_left sid (userName sk) (length us)) in
      if decide (length us = 0) then
        (State (delete rid (rooms st)) gone, out)
      else
        (State (<[rid := Room (room_id r) us (room_createdAt r)]> (rooms st))
               gone, out)
    | None => (State (rooms st) gone, [])
    end
  | None => (State (rooms st) gone, [])
  end.

(** Dispatch of one event arriving on the connected socket [sid]. *)
Definition handle (st : state) (sid : string) (sk : socket) (e : event)
  : state * list delivery :=
  match e with
  | create_room digits now => on_create_room st sid digits now
  | join_room rid uname now => on_join_room st sid sk rid uname now
  | offer o t => relay st sid t (offer_from o sid)
  | answer a t => relay st sid t (answer_from a sid)
  | ice_candidate c t => relay st sid t (ice_candidate_from c sid)
  | user_status s => on_user_status st sid sk s
  | disconnect => on_disconnect st sid sk
  end.

(** What reaches the server: a new connection, or an event on a socket. An
    event on a socket that is not connected has no handler to run. *)
Inductive input :=
| connection (sid : string)
| on (sid : string) (e : event).

Definition step (st : state) (i : input) : state * list delivery :=
  match i with
  | connection sid =>
    (State (rooms st) (<[sid := Socket None None []]> (sockets st)), [])
  | on sid e =>
    match sockets st !! sid with
    | Some sk => handle st sid sk e
    | None => (st, [])
    end
  end.

(** Running a sequence of inputs, collecting the deliveries. *)
Fixpoint run (st : state) (ins : list input) : state * list delivery :=
  match ins with
  | [] => (st, [])
  | i :: ins' =>
    let '(st1, out1) := step st i in
    let '(st2, out2) := run st1 ins' in
    (st2, out1 ++ out2)
  end.

(** The transport gives a new connection an id no live connection has. *)
Inductive reachable : state → Prop :=
| reachable_initial : reachable initial
| reachable_connection st sid :
    reachable st → sockets st !! sid = None →
    reachable (step st (connection sid)).1
| reachable_on st sid e :
    reachable st → reachable (step st (on sid e)).1.

(** ** Vocabulary of the properties *)

(** No connection id occurs twice in a membership list. *)
Definition members_distinct (st : state) : Prop :=
  ∀ rid r, rooms st !! rid = Some r → NoDup (user_id <$> room_users r).

(** Every [connection] in the run carries an id that is not connected. *)
Fixpoint fresh (st : state) (ins : list input) : bool :=
  match ins with
  | [] => true
  | i :: ins' =>
    match i with
    | connection sid => bool_decide (sockets st !! sid = None)
    | on _ _ => true
    end && fresh (step st i).1 ins'
  end.

(** Two clients in one session, as in the end-to-end scenario of the
    specification; and a third connection besides. *)
Definition two_party : state :=
  (run initial [connection "X"; connection "Y";
                on "X" (create_room "abc123xy" 0);
                on "X" (join_room "abc123xy" (Some "Alice") 1);
                on "Y" (join_room "abc123xy" (Some "Bob") 2)]).1.

Definition three_connected : state := (step two_party (connection "Z")).1.

Definition session_of_two : room :=
  Room "abc123xy" [User "X" "Alice" 1; User "Y" "Bob" 2] 0.

(** The three negotiation messages: the event received from [sid], its
    [targetId], and the event the server emits in turn. *)
Inductive relayed (sid : string) : event → string → emitted → Prop :=
| relayed_offer o t : relayed sid (offer o t) t (offer_from o sid)
| relayed_answer a t : relayed sid (answer a t) t (answer_from a sid)
| relayed_ice_candidate c t :
    relayed sid (ice_candidate c t) t (ice_candidate_from c sid).


(** Events that keep to the data model, in which an identifier names one
    session and a participant belongs to one session: [create-room] draws a
    non-empty identifier that names no live session, and a socket asks to
    join no session other than its current one. *)
Definition orderly_event (st : state) (sk : socket) (e : event) : bool :=
  match e with
  | create_room digits _ =>
    bool_decide (generateRoomId digits ≠ ""
                 ∧ rooms st !! generateRoomId digits = None)
  | join_room rid _ _ =>
    bool_decide (roomId sk = None ∨ roomId sk = Some rid)
  | _ => true
  end.

(** The states reached by such events. *)
Inductive orderly : state → Prop :=
| orderly_initial : orderly initial
| orderly_connection st sid :
    orderly st → sockets st !! sid = None →
    orderly (step st (connection sid)).1
| orderly_on st sid sk e :
    orderly st → sockets st !! sid = Some sk →
    orderly_event st sk e = true →
    orderly (step st (on sid e)).1.



End Server.

(* ===================================================================== *)
(** * The client hook ([useWebRTC.ts]) *)
(* ===================================================================== *)

Module Client.

Inductive kind := audio | video.

#[export] Instance kind_eq_dec : EqDecision kind.
Proof. solve_decision. Defined.

Record track := Track {
  track_kind : kind;
  track_label : string
}.

#[export] Instance track_eq_dec : EqDecision track.
Proof. solve_decision. Defined.

(** A [MediaStream] is the list of its tracks. *)
Definition stream := list track.

Definition getVideoTracks (s : stream) : list track :=
  filter (λ t, track_kind t = video) s.

(** The [RTCPeerConnection] as the hook observes it: the two descriptions,
    the track of each sender (a sender may hold no track), and the remote
    candidates the connection has accepted. *)
Record peer := Peer {
  localDescription : option payload;
  remoteDescription : option payload;
  senders : list (option track);
  remoteCandidates : list payload
}.

(** The browser decides whether each asynchronous call on the connection
    resolves or rejects, and what [createOffer] and [createAnswer] produce. *)
Record browser := Browser {
  setRemoteDescription_ok : peer → payload → bool;
  setLocalDescription_ok : peer → payload → bool;
  createOffer_result : peer → option payload;
  createAnswer_result : peer → option payload;
  addIceCandidate_ok : peer → payload → bool;
  replaceTrack_ok : peer → nat → option track → bool
}.

(** Messages the hook emits on the signaling socket. *)
Inductive message :=
| create_room
| join_room (rid : string) (uname : string)
| offer (o : payload) (targetId : string)
| answer (a : payload) (targetId : string)
| ice_candidate (c : payload) (targetId : string).

#[export] Instance message_eq_dec : EqDecision message.
Proof. solve_decision. Defined.

(** The effects of the hook, in program order: calls on the peer connection
    with their outcome, socket emissions, console lines, and calls of the
    [onLeaveRoomWithError] callback. *)
Inductive action :=
| new_RTCPeerConnection
| addTrack (t : track)
| setRemoteDescription (d : payload) (ok : bool)
| setLocalDescription (d : payload) (ok : bool)
| createOffer_call (r : option payload)
| createAnswer_call (r : option payload)
| addIceCandidate (c : payload) (ok : bool)
| replaceTrack (t : option track) (ok : bool)
| close
| emit (m : message)
| console (line : string)
| onLeaveRoomWithError (reason : string)
| onRoomIdCreated (rid : string).

#[export] Instance action_eq_dec : EqDecision action.
Proof. solve_decision. Defined.

(** The refs and the React state of the hook, and the effects so far.
    [socketRef] holds the [connected] flag of the socket once there is one.
    Each handler is taken to run to completion before the next event. *)
Record state := State {
  socketRef : option bool;
  peerConnectionRef : option peer;
  localStreamRef : option stream;
  currentRoomIdRef : string;
  localStream : option stream;
  remoteStream : option stream;
  isConnected : bool;
  users : list Server.user;
  isScreenSharing : bool;
  connectionStatus : string;
  trace : list action
}.

Definition initial : state :=
  State None None None "" None None false [] false "Initializing..." [].

Definition tell (a : action) (st : state) : state :=
  State (socketRef st) (peerConnectionRef st) (localStreamRef st)
        (currentRoomIdRef st) (localStream st) (remoteStream st)
        (isConnected st) (users st) (isScreenSharing st) (connectionStatus st)
        (trace st ++ [a]).

Definition set_peerConnectionRef (p : option peer) (st : state) : state :=
  State (socketRef st) p (localStreamRef st)
        (currentRoomIdRef st) (localStream st) (remoteStream st)
        (isConnected st) (users st) (isScreenSharing st) (connectionStatus st)
        (trace st).

Definition setLocalStream (s : stream) (st : state) : state :=
  State (socketRef st) (peerConnectionRef st) (Some s)
        (currentRoomIdRef st) (Some s) (remoteStream st)
        (isConnected st) (users st) (isScreenSharing st) (connectionStatus st)
        (trace st).

Definition setRemoteStream (s : option stream) (st : state) : state :=
  State (socketRef st) (peerConnectionRef st) (localStreamRef st)
        (currentRoomIdRef st) (localStream st) s
        (isConnected st) (users st) (isScreenSharing st) (connectionStatus st)
        (trace st).

Definition setIsScreenSharing (b : bool) (st : state) : state :=
  State (socketRef st) (peerConnectionRef st) (localStreamRef st)
        (currentRoomIdRef st) (localStream st) (remoteStream st)
        (isConnected st) (users st) b (connectionStatus st)
        (trace st).

Definition setConnectionStatus (s : string) (st : state) : state :=
  State (socketRef st) (peerConnectionRef st) (localStreamRef st)
        (currentRoomIdRef st) (localStream st) (remoteStream st)
        (isConnected st) (users st) (isScreenSharing st) s
        (trace st).

Definition set_joined (rid : string) (us : list Server.user) (st : state)
  : state :=
  State (socketRef st) (peerConnectionRef st) (localStreamRef st)
        rid (localStream st) (remoteStream st)
        true us (isScreenSharing st) (connectionStatus st)
        (trace st).

Definition set_socketRef (connected : bool) (st : state) : state :=
  State (Some connected) (peerConnectionRef st) (localStreamRef st)
        (currentRoomIdRef st) (localStream st) (remoteStream st)
        (isConnected st) (users st) (isScreenSharing st) (connectionStatus st)
        (trace st).

Definition setIsConnected (b : bool) (st : state) : state :=
  State (socketRef st) (peerConnectionRef st) (localStreamRef st)
        (currentRoomIdRef st) (localStream st) (remoteStream st)
        b (users st) (isScreenSharing st) (connectionStatus st)
        (trace st).

Definition set_currentRoomIdRef (rid : string) (st : state) : state :=
  State (socketRef st) (peerConnectionRef st) (localStreamRef st)
        rid (localStream st) (remoteStream st)
        (isConnected st) (users st) (isScreenSharing st) (connectionStatus st)
        (trace st).

(** The messages emitted so far, in order. *)
Definition emitted (st : state) : list message :=
  omap (λ a, match a with emit m => Some m | _ => None end) (trace st).

Definition is_console (a : action) : bool :=
  match a with console _ => true | _ => false end.

(** The state with the console lines left out. *)
Definition silent (st : state) : state :=
  State (socketRef st) (peerConnectionRef st) (localStreamRef st)
        (currentRoomIdRef st) (localStream st) (remoteStream st)
        (isConnected st) (users st) (isScreenSharing st) (connectionStatus st)
        (filter (λ a, is_console a = false) (trace st)).

(** [String.prototype.includes] *)
Fixpoint includes (needle hay : string) : bool :=
  String.prefix needle hay ||
  match hay with
  | EmptyString => false
  | String _ rest => includes needle rest
  end.

Definition kind_name (k : kind) : string :=
  match k with audio => "audio" | video => "video" end.

(** ** Media *)

(** [initializeMedia]. [gum] is the outcome of [getUserMedia]: the stream,
    or the message of the error it rejects with. The boolean tells whether
    the function returned (rather than threw). *)
Definition initializeMedia (st : state) (gum : stream + string)
  : state * bool :=
  let st := tell (console "Initializing media stream...") st in
  let st := setConnectionStatus "Getting camera access..." st in
  match gum with
  | inl s =>
    let st := tell (console "Media stream obtained") st in
    let st := setLocalStream s st in
    (setConnectionStatus "Media ready" st, true)
  | inr errorMessage =>
    let st := tell (console ("Failed to get media stream: " +:+ errorMessage))
                   st in
    let reason :=
      if includes "Permission denied" errorMessage
         || includes "NotAllowedError" errorMessage
      then "Camera access denied. Please allow camera permissions and try again."
      else if includes "NotFoundError" errorMessage
      then "No camera found. Please connect a camera and try again."
      else "Media access failed: " +:+ errorMessage in
    (tell (onLeaveRoomWithError reason) st, false)
  end.

(** ** The peer connection *)

(** [createPeerConnection]: a new connection carrying the local tracks. *)
Definition createPeerConnection (st : state) : state * peer :=
  let st := tell (console "Creating peer connection...") st in
  let st := tell new_RTCPeerConnection st in
  let tracks := default [] (localStreamRef st) in
  let st :=
    foldl (λ st t,
             tell (addTrack t)
               (tell (console ("Adding track to peer connection: "
                               +:+ kind_name (track_kind t))) st))
          st tracks in
  let p := Peer None None (Some <$> tracks) [] in
  (set_peerConnectionRef (Some p) st, p).

(** The [onicecandidate] handler installed by [createPeerConnection]. A
    [None] candidate is the end-of-gathering event. *)
Definition onicecandidate (st : state) (candidate : option payload) : state :=
  match candidate with
  | Some c =>
    if socketRef st is Some _ then
      tell (emit (ice_candidate c "broadcast"))
           (tell (console "Sending ICE candidate") st)
    else st
  | None => st
  end.

(** The [ontrack] handler. *)
Definition ontrack (st : state) (k : kind) (remote : stream) : state :=
  let st := tell (console ("Received remote track: " +:+ kind_name k)) st in
  setConnectionStatus "Video call active" (setRemoteStream (Some remote) st).

(** [if (!peerConnectionRef.current) createPeerConnection()] followed by
    the read of [peerConnectionRef.current]. *)
Definition ensurePeerConnection (st : state) : state * peer :=
  match peerConnectionRef st with
  | Some p => (st, p)
  | None => createPeerConnection st
  end.

Section Handlers.

Variable B : browser.

(** [createOffer] *)
Definition createOffer (st : state) (targetUserId : string) : state :=
  let st := tell (console ("Creating offer for user: " +:+ targetUserId)) st in
  let '(st, p) := ensurePeerConnection st in
  match createOffer_result B p with
  | None =>
    tell (console "Error creating offer") (tell (createOffer_call None) st)
  | Some o =>
    let st := tell (createOffer_call (Some o)) st in
    if setLocalDescription_ok B p o then
      let p := Peer (Some o) (remoteDescription p) (senders p)
                    (remoteCandidates p) in
      let st := set_peerConnectionRef (Some p)
                  (tell (setLocalDescription o true) st) in
      if socketRef st is Some _ then tell (emit (offer o targetUserId)) st else st
    else
      tell (console "Error creating offer")
           (tell (setLocalDescription o false) st)
  end.

(** [handleOffer] *)
Definition handleOffer (st : state) (o : payload) (senderId : string)
  : state :=
  let st := tell (console ("Handling offer from: " +:+ senderId)) st in
  let '(st, p) := ensurePeerConnection st in
  if setRemoteDescription_ok B p o then
    let p := Peer (localDescription p) (Some o) (senders p)
                  (remoteCandidates p) in
    let st := set_peerConnectionRef (Some p)
                (tell (setRemoteDescription o true) st) in
    match createAnswer_result B p with
    | None =>
      tell (console "Error handling offer") (tell (createAnswer_call None) st)
    | Some a =>
      let st := tell (createAnswer_call (Some a)) st in
      if setLocalDescription_ok B p a then
        let p := Peer (Some a) (remoteDescription p) (senders p)
                      (remoteCandidates p) in
        let st := set_peerConnectionRef (Some p)
                    (tell (setLocalDescription a true) st) in
        if socketRef st is Some _ then tell (emit (answer a senderId)) st else st
      else
        tell (console "Error handling offer")
             (tell (setLocalDescription a false) st)
    end
  else
    tell (console "Error handling offer")
         (tell (setRemoteDescription o false) st).

(** [handleAnswer] *)
Definition handleAnswer (st : state) (a : payload) : state :=
  let st := tell (console "Handling answer") st in
  match peerConnectionRef st with
  | Some p =>
    if setRemoteDescription_ok B p a then
      set_peerConnectionRef
        (Some (Peer (localDescription p) (Some a) (senders p)
                    (remoteCandidates p)))
        (tell (setRemoteDescription a true) st)
    else
      tell (console "Error handling answer")
           (tell (setRemoteDescription a false) st)
  | None => st
  end.

(** [handleIceCandidate] *)
Definition handleIceCandidate (st : state) (c : payload) : state :=
  match peerConnectionRef st with
  | Some p =>
    if addIceCandidate_ok B p c then
      set_peerConnectionRef
        (Some (Peer (localDescription p) (remoteDescription p) (senders p)
                    (remoteCandidates p ++ [c])))
        (tell (addIceCandidate c true) st)
    else
      tell (console "Error handling ICE candidate")
           (tell (addIceCandidate c false) st)
  | None => st
  end.

(** ** The signaling socket *)

(** [initializeSocket]: a connected socket is reused, otherwise a new one is
    made, which connects later. *)
Definition initializeSocket (st : state) : state :=
  match socketRef st with
  | Some true => tell (console "Socket already connected, reusing...") st
  | _ =>
    let st := tell (console "Creating new socket connection...") st in
    set_socketRef false (setConnectionStatus "Connecting to server..." st)
  end.

(** [socket.on('connect')] *)
Definition on_connect (st : state) : state :=
  let st := tell (console "Socket connected") st in
  setConnectionStatus "Connected to server" (set_socketRef true st).

(** [socket.on('disconnect')] *)
Definition on_disconnect (st : state) : state :=
  let st := tell (console "Socket disconnected") st in
  setIsConnected false
    (setConnectionStatus "Disconnected from server" (set_socketRef false st)).

(** [socket.on('connect_error')] *)
Definition on_connect_error (st : state) : state :=
  let st := tell (console "Socket connection error") st in
  tell (onLeaveRoomWithError "Failed to connect to server. Please try again.")
       (setConnectionStatus "Connection failed" st).

(** [socket.on('error')]: [error.message || 'Connection error occurred'] *)
Definition on_error (st : state) (message : option string) : state :=
  let st := tell (console "Socket error") st in
  tell (onLeaveRoomWithError
          (default "Connection error occurred" (truthy message))) st.

(** [createRoom] *)
Definition createRoom (st : state) : state :=
  if socketRef st is Some _ then
    let st := tell (console "Creating new room...") st in
    tell (emit create_room) (setConnectionStatus "Creating room..." st)
  else st.

(** The acknowledgement callback of [create-room]. *)
Definition on_room_created (st : state) (newRoomId : string) : state :=
  let st := tell (console ("Room created: " +:+ newRoomId)) st in
  tell (onRoomIdCreated newRoomId) (set_currentRoomIdRef newRoomId st).

(** [joinRoom], with the [userName] of the hook's properties. *)
Definition joinRoom (st : state) (targetRoomId userName : string) : state :=
  if socketRef st is Some _ then
    let st := tell (console ("Joining room: " +:+ targetRoomId)) st in
    tell (emit (join_room targetRoomId userName))
         (setConnectionStatus "Joining room..." st)
  else st.

(** ** Signaling events *)

(** [socket.on('room-joined')] *)
Definition on_room_joined (st : state) (rid : string)
    (us : list Server.user) (isInitiator : bool) : state :=
  let st := tell (console ("Room joined successfully: " +:+ rid)) st in
  setConnectionStatus "Connected to room" (set_joined rid us st).

(** [socket.on('user-joined')]: the offer is made by a timer one second
    later, see [on_offer_timer]. *)
Definition on_user_joined (st : state) (userId newUserName : string)
    (usersCount : nat) : state :=
  let st := tell (console ("User joined: " +:+ userId)) st in
  setConnectionStatus (newUserName +:+ " joined the call") st.

(** The body of the timer set by the [user-joined] handler. *)
Definition on_offer_timer (st : state) (userId : string) : state :=
  match peerConnectionRef st, localStreamRef st with
  | Some _, Some _ => createOffer st userId
  | _, _ => st
  end.

(** [socket.on('user-left')] *)
Definition on_user_left (st : state) (userId : string) : state :=
  let st := tell (console ("User left: " +:+ userId)) st in
  let st := setConnectionStatus "Other participant left" st in
  let st := setRemoteStream None st in
  match peerConnectionRef st with
  | Some _ => set_peerConnectionRef None (tell close st)
  | None => st
  end.

(** [socket.on('offer')] *)
Definition on_offer (st : state) (o : payload) (senderId : string) : state :=
  handleOffer (tell (console ("Received offer from: " +:+ senderId)) st)
              o senderId.

(** [socket.on('answer')] *)
Definition on_answer (st : state) (a : payload) (senderId : string) : state :=
  handleAnswer (tell (console ("Received answer from: " +:+ senderId)) st) a.

(** [socket.on('ice-candidate')] *)
Definition on_ice_candidate (st : state) (c : payload) (senderId : string)
  : state :=
  handleIceCandidate
    (tell (console ("Received ICE candidate from: " +:+ senderId)) st) c.

(** ** Screen sharing *)

Definition is_video_sender (s : option track) : bool :=
  match s with
  | Some t => bool_decide (track_kind t = video)
  | None => false
  end.

(** Index of the first element satisfying [f], as [Array.prototype.find]
    visits them. *)
Fixpoint find_index {A} (f : A → bool) (l : list A) : option nat :=
  match l with
  | [] => None
  | x :: l' => if f x then Some 0 else S <$> find_index f l'
  end.

(** [toggleScreenShare]. [display] is the outcome of [getDisplayMedia]
    ([None] when it rejects) and [gum] that of [getUserMedia]; each is read
    only on the branch that makes the call. *)
Definition toggleScreenShare (st : state) (display : option stream)
    (gum : stream + string) : state :=
  if negb (isScreenSharing st) then
    let st := tell (console "Starting screen share...") st in
    match display with
    | None => tell (console "Screen share error") st
    | Some screenStream =>
      let videoTrack := head (getVideoTracks screenStream) in
      let replaced : option state :=
        match peerConnectionRef st, localStreamRef st with
        | Some p, Some _ =>
          match find_index is_video_sender (senders p) with
          | Some i =>
            if replaceTrack_ok B p i videoTrack then
              Some (set_peerConnectionRef
                      (Some (Peer (localDescription p) (remoteDescription p)
                                  (<[i := videoTrack]> (senders p))
                                  (remoteCandidates p)))
                      (tell (replaceTrack videoTrack true) st))
            else None
          | None => Some st
          end
        | _, _ => Some st
        end in
      match replaced with
      | None =>
        tell (console "Screen share error")
             (tell (replaceTrack videoTrack false) st)
      | Some st =>
        let st := setIsScreenSharing true st in
        match videoTrack with
        | Some _ => st (* its [onended] is [on_screen_share_ended] *)
        | None => tell (console "Screen share error") st
        end
      end
    end
  else
    let st := tell (console "Stopping screen share...") st in
    let st := setIsScreenSharing false st in
    let '(st, returned) := initializeMedia st gum in
    if returned then st else tell (console "Screen share error") st.

(** The [onended] handler of the shared screen track. *)
Definition on_screen_share_ended (st : state) (gum : stream + string)
  : state :=
  let st := tell (console "Screen share ended") st in
  (initializeMedia (setIsScreenSharing false st) gum).1.

(** ** Events of the hook *)

Inductive input :=
| media (gum : stream + string)
| socket_initialized
| socket_connect
| socket_disconnect
| socket_connect_error
| socket_error (message : option string)
| create_room_called
| room_created (rid : string)
| join_room_called (rid uname : string)
| room_joined (rid : string) (us : list Server.user) (isInitiator : bool)
| user_joined (userId uname : string) (usersCount : nat)
| offer_timer (userId : string)
| user_left (userId : string)
| offer_from (o : payload) (senderId : string)
| answer_from (a : payload) (senderId : string)
| ice_candidate_from (c : payload) (senderId : string)
| icecandidate (c : option payload)
| remote_track (k : kind) (remote : stream)
| screen_share_toggled (display : option stream) (gum : stream + string)
| screen_share_ended (gum : stream + string).

Definition step (st : state) (i : input) : state :=
  match i with
  | media gum => (initializeMedia st gum).1
  | socket_initialized => initializeSocket st
  | socket_connect => on_connect st
  | socket_disconnect => on_disconnect st
  | socket_connect_error => on_connect_error st
  | socket_error message => on_error st message
  | create_room_called => createRoom st
  | room_created rid => on_room_created st rid
  | join_room_called rid uname => joinRoom st rid uname
  | room_joined rid us ini => on_room_joined st rid us ini
  | user_joined u n c => on_user_joined st u n c
  | offer_timer u => on_offer_timer st u
  | user_left u => on_user_left st u
  | offer_from o s => on_offer st o s
  | answer_from a s => on_answer st a s
  | ice_candidate_from c s => on_ice_candidate st c s
  | icecandidate c => onicecandidate st c
  | remote_track k r => ontrack st k r
  | screen_share_toggled d g => toggleScreenShare st d g
  | screen_share_ended g => on_screen_share_ended st g
  end.

Definition run (st : state) (ins : list input) : state := foldl step st ins.

End Handlers.

(** A browser on which every call resolves, except that a candidate is
    refused while the connection has no remote description. *)
Definition permissive : browser :=
  Browser (λ _ _, true) (λ _ _, true)
          (λ _, Some "offer-sdp") (λ _, Some "answer-sdp")
          (λ p _, bool_decide (is_Some (remoteDescription p)))
          (λ _ _ _, true).

(** ** Vocabulary of the properties *)

(** The state with the record of effects left out: what a later handler can
    read. *)
Definition forget (st : state) : state :=
  State (socketRef st) (peerConnectionRef st) (localStreamRef st)
        (currentRoomIdRef st) (localStream st) (remoteStream st)
        (isConnected st) (users st) (isScreenSharing st) (connectionStatus st)
        [].

(** Setting up a connection: console lines, the constructor, [addTrack]. *)
Definition is_setup (a : action) : bool :=
  match a with
  | console _ | new_RTCPeerConnection | addTrack _ => true
  | _ => false
  end.

(** The state with [new] added to the record of effects. *)
Definition extend (st : state) (new : list action) : state :=
  State (socketRef st) (peerConnectionRef st) (localStreamRef st)
        (currentRoomIdRef st) (localStream st) (remoteStream st)
        (isConnected st) (users st) (isScreenSharing st) (connectionStatus st)
        (trace st ++ new).

(** The connection a negotiation handler works on: the current one, or the
    one [createPeerConnection] makes. *)
Definition connection_for (st : state) : peer :=
  match peerConnectionRef st with
  | Some p => p
  | None => Peer None None (Some <$> default [] (localStreamRef st)) []
  end.

(** The remote candidates the current connection has accepted. *)
Definition remote_candidates (st : state) : list payload :=
  from_option remoteCandidates [] (peerConnectionRef st).

(** The connection with a description replaced. *)
Definition with_remote (d : payload) (p : peer) : peer :=
  Peer (localDescription p) (Some d) (senders p) (remoteCandidates p).

Definition with_local (d : payload) (p : peer) : peer :=
  Peer (Some d) (remoteDescription p) (senders p) (remoteCandidates p).

(** What [on_offer] adds to the record of effects after setting up the
    connection, by the outcome of each call. *)
Definition negotiation (B : browser) (st : state) (o : payload)
    (senderId : string) : list action :=
  let p0 := connection_for st in
  if setRemoteDescription_ok B p0 o then
    match createAnswer_result B (with_remote o p0) with
    | None =>
      [setRemoteDescription o true; createAnswer_call None;
       console "Error handling offer"]
    | Some a =>
      if setLocalDescription_ok B (with_remote o p0) a then
        [setRemoteDescription o true; createAnswer_call (Some a);
         setLocalDescription a true]
        ++ (if socketRef st is Some _ then [emit (answer a senderId)] else [])
      else
        [setRemoteDescription o true; createAnswer_call (Some a);
         setLocalDescription a false; console "Error handling offer"]
    end
  else [setRemoteDescription o false; console "Error handling offer"].

(** A client with camera and microphone acquired and its socket created. *)
Definition camera : stream := [Track audio "microphone"; Track video "camera"].

Definition screen : stream := [Track video "screen"].

Definition ready : state :=
  run permissive initial
      [media (inl camera); socket_initialized; socket_connect].

End Client.

(* ===================================================================== *)
(** * Client and server together *)
(* ===================================================================== *)

Module EndToEnd.

(** The server event a negotiation message of the client arrives as. *)
Definition wire (m : Client.message) : option Server.event :=
  match m with
  | Client.offer o t => Some (Server.offer o t)
  | Client.answer a t => Some (Server.answer a t)
  | Client.ice_candidate c t => Some (Server.ice_candidate c t)
  | _ => None
  end.

(** What the server delivers when the socket [sid] emits the messages [ms]. *)
Definition deliveries (st : Server.state) (sid : string)
    (ms : list Client.message) : list Server.delivery :=
  (Server.run st (Server.on sid <$> omap wire ms)).2.

End EndToEnd.

(* ===================================================================== *)
(** * Further vocabulary *)
(* ===================================================================== *)

Module ServerTerms.
Import Server.

(** The events the server sends back to the socket it is handling. *)
Definition is_reply (e : emitted) : bool :=
  match e with
  | error _ | room_created _ | room_joined _ _ _ => true
  | _ => false
  end.

(** The session under [rid] with the socket [sid] taken out of its members,
    as [disconnect] leaves it. *)
Definition without (sid : string) (r : room) : room :=
  Room (room_id r) (filter (λ u, user_id u ≠ sid) (room_users r))
       (room_createdAt r).

(** The session with one more member, as [join-room] leaves it. *)
Definition with_member (u : user) (r : room) : room :=
  Room (room_id r) (room_users r ++ [u]) (room_createdAt r).

End ServerTerms.

Module ClientTerms.
Import Client.

(** The messages among a list of effects. *)
Definition sent (l : list action) : list message :=
  omap (λ a, match a with emit m => Some m | _ => None end) l.

(** Offers and answers, the messages that carry a session description. *)
Definition is_description (m : message) : bool :=
  match m with
  | offer _ _ | answer _ _ => true
  | _ => false
  end.

Definition is_offer_from (i : input) : bool :=
  match i with
  | offer_from _ _ => true
  | _ => false
  end.

(** The message an event can make the hook emit. *)
Definition prompted_by (i : input) (m : message) : Prop :=
  match i, m with
  | create_room_called, create_room => True
  | join_room_called rid uname, join_room rid' uname' =>
    rid' = rid ∧ uname' = uname
  | offer_timer userId, offer _ targetId => targetId = userId
  | offer_from _ senderId, answer _ targetId => targetId = senderId
  | icecandidate (Some c), ice_candidate c' targetId =>
    c' = c ∧ targetId = "broadcast"
  | _, _ => False
  end.

(** What [createOffer] adds to the record of effects after setting up the
    connection, by the outcome of each call. *)
Definition offering (B : browser) (st : state) (targetUserId : string)
  : list action :=
  let p0 := connection_for st in
  match createOffer_result B p0 with
  | None => [createOffer_call None; console "Error creating offer"]
  | Some o =>
    if setLocalDescription_ok B p0 o then
      [createOffer_call (Some o); setLocalDescription o true]
      ++ (if socketRef st is Some _ then [emit (offer o targetUserId)] else [])
    else
      [createOffer_call (Some o); setLocalDescription o false;
       console "Error creating offer"]
  end.

(** The messages a step adds to those emitted. *)
Definition emission (B : browser) (st : state) (i : input) : list message :=
  match i with
  | create_room_called => if socketRef st is Some _ then [create_room] else []
  | join_room_called rid uname =>
    if socketRef st is Some _ then [join_room rid uname] else []
  | offer_timer userId =>
    match peerConnectionRef st, localStreamRef st with
    | Some _, Some _ => sent (offering B st userId)
    | _, _ => []
    end
  | offer_from o senderId => sent (negotiation B st o senderId)
  | icecandidate (Some c) =>
    if socketRef st is Some _ then [ice_candidate c "broadcast"] else []
  | _ => []
  end.

(** [needle] occurs in [hay]. *)
Definition contains (needle hay : string) : Prop :=
  ∃ pre post, hay = pre +:+ needle +:+ post.

Definition is_room_joined (i : input) : bool :=
  match i with
  | room_joined _ _ _ => true
  | _ => false
  end.

(** The descriptions, the accepted candidates and the number of senders of
    the current connection. *)
Definition negotiated (st : state)
  : option (option payload * option payload * list payload * nat) :=
  (λ p, (localDescription p, remoteDescription p, remoteCandidates p,
         length (senders p))) <$> peerConnectionRef st.

End ClientTerms.

(** What [VideoRoom] shows of the hook's participant list. *)
Module Frontend.

(** The name on the remote tile:
    [users.find(u => u.id !== 'local')?.name || 'Remote User']. *)
Definition remote_user_name (users : list Server.user) : string :=
  match find (λ u, negb (bool_decide (Server.user_id u = "local"))) users with
  | Some u => default "Remote User" (truthy (Some (Server.user_name u)))
  | None => "Remote User"
  end.

End Frontend.

(** The microphone and camera switches of the hook ([toggleAudio],
    [toggleVideo]). They read [localStreamRef] and write the [enabled]
    property of its tracks and the two flags, nothing else. *)
Module Controls.
Import Client.

(** The two flags, and the tracks whose [enabled] property is false. A track
    object is listed as the value that describes it, so the local stream and
    a sender holding the same track see the same property. *)
Record controls := Controls {
  isAudioEnabled : bool;
  isVideoEnabled : bool;
  disabled : list track
}.

Definition initial : controls := Controls true true [].

(** [track.enabled] *)
Definition enabled (c : controls) (t : track) : bool :=
  bool_decide (t ∉ disabled c).

(** [track.enabled = !track.enabled] *)
Definition flip (d : list track) (t : track) : list track :=
  if decide (t ∈ d) then filter (λ x, x ≠ t) d else t :: d.

Definition getAudioTracks (s : stream) : list track :=
  filter (λ t, track_kind t = audio) s.

(** [toggleAudio] *)
Definition toggleAudio (st : state) (c : controls) : controls :=
  match localStreamRef st with
  | Some s =>
    Controls (negb (isAudioEnabled c)) (isVideoEnabled c)
             (foldl flip (disabled c) (getAudioTracks s))
  | None => c
  end.

(** [toggleVideo] *)
Definition toggleVideo (st : state) (c : controls) : controls :=
  match localStreamRef st with
  | Some s =>
    Controls (isAudioEnabled c) (negb (isVideoEnabled c))
             (foldl flip (disabled c) (getVideoTracks s))
  | None => c
  end.

End Controls.

(* ===================================================================== *)
(** * Properties of the server *)
(* ===================================================================== *)

Module ServerFacts.
Import Server.

(** ** Recipients of [socket.to] *)

Lemma elem_of_to st sender r s :
  s ∈ to st sender r ↔
  s ≠ sender ∧ ∃ sk, sockets st !! s = Some sk ∧ in_room r s sk = true.
Proof.
  unfold to. rewrite list_elem_of_fmap. split.
  - intros [[s' sk] [-> [[Hne Hin] Hm]%list_elem_of_filter]].
    apply elem_of_map_to_list in Hm. simpl in *. eauto.
  - intros [Hne [sk [Hsk Hin]]]. exists (s, sk). split; [done|].
    apply list_elem_of_filter. split; [done|]. by apply elem_of_map_to_list.
Qed.

Lemma NoDup_to st sender r : NoDup (to st sender r).
Proof.
  unfold to. apply NoDup_fmap_fst.
  - intros x y1 y2 [_ H1]%list_elem_of_filter [_ H2]%list_elem_of_filter.
    apply elem_of_map_to_list in H1, H2. congruence.
  - apply NoDup_filter, NoDup_map_to_list.
Qed.

Lemma in_room_spec r s sk : in_room r s sk = true ↔ s = r ∨ r ∈ joined sk.
Proof.
  unfold in_room. rewrite orb_true_iff, !bool_decide_eq_true. tauto.
Qed.

Lemma elem_of_broadcast st sender r e d :
  d ∈ broadcast st sender r e ↔ d.2 = e ∧ d.1 ∈ to st sender r.
Proof.
  unfold broadcast. rewrite list_elem_of_fmap. split.
  - intros [s [-> Hs]]. done.
  - intros [<- Hs]. exists d.1. by destruct d.
Qed.

(** ** Membership lists *)

Lemma find_member sid (us : list user) :
  sid ∈ user_id <$> us ↔
  is_Some (find (λ u, bool_decide (user_id u = sid)) us).
Proof.
  induction us as [|u us IH]; simpl.
  - split; [by intros ?%elem_of_nil | by intros [? ?]].
  - rewrite elem_of_cons. case_bool_decide as Hu.
    + split; [eauto | by left].
    + rewrite <- IH. split; [intros [?|?]; [congruence|done] | by right].
Qed.

Lemma find_not_member sid (us : list user) :
  sid ∉ user_id <$> us ↔
  find (λ u, bool_decide (user_id u = sid)) us = None.
Proof. rewrite find_member, <- eq_None_not_Some. done. Qed.

Lemma NoDup_filter_ids sid (us : list user) :
  NoDup (user_id <$> us) →
  NoDup (user_id <$> filter (λ u, user_id u ≠ sid) us).
Proof.
  induction us as [|u us IH]; [done|]. rewrite fmap_cons, NoDup_cons.
  intros [Hu Hus]. rewrite filter_cons. case_decide; [|by apply IH].
  rewrite fmap_cons, NoDup_cons. split; [|by apply IH].
  rewrite list_elem_of_fmap in *. intros [v [Hv [_ Hin]%list_elem_of_filter]].
  apply Hu. eauto.
Qed.

Lemma step_members_distinct st i :
  members_distinct st → members_distinct (step st i).1.
Proof.
  intros Hst. destruct i as [sid|sid e]; cbn [step fst]; [done|].
  destruct (sockets st !! sid) as [sk|]; [|done].
  destruct e; cbn [handle relay fst]; try done.
  - (* create-room *)
    intros rid r. unfold on_create_room; cbn.
    destruct (decide (generateRoomId digits = rid)) as [->|Hne].
    + rewrite lookup_insert_eq. intros [= <-]. simpl. constructor.
    + rewrite lookup_insert_ne by done. apply Hst.
  - (* join-room *)
    unfold on_join_room.
    destruct (rooms st !! rid) as [r|] eqn:Hr; [|done].
    destruct (find _ (room_users r)) eqn:Hfind; [done|].
    case_decide; [done|]. intros rid' r'; cbn.
    destruct (decide (rid = rid')) as [->|Hne].
    + rewrite lookup_insert_eq. intros [= <-]. cbn.
      rewrite fmap_app. apply NoDup_app. split; [by eapply Hst|].
      split; [|apply NoDup_singleton].
      intros x Hx ->%list_elem_of_singleton.
      by apply find_not_member in Hfind.
    + rewrite lookup_insert_ne by done. apply Hst.
  - (* user-status *)
    unfold on_user_status. by destruct (truthy (roomId sk)).
  - (* disconnect *)
    unfold on_disconnect. destruct (truthy (roomId sk)) as [rid|]; [|done].
    destruct (rooms st !! rid) as [r|] eqn:Hr; [|done].
    case_decide; intros rid' r'; cbn.
    + destruct (decide (rid = rid')) as [->|Hne].
      * by rewrite lookup_delete_eq.
      * rewrite lookup_delete_ne by done. apply Hst.
    + destruct (decide (rid = rid')) as [->|Hne].
      * rewrite lookup_insert_eq. intros [= <-]. cbn.
        apply NoDup_filter_ids. by eapply Hst.
      * rewrite lookup_insert_ne by done. apply Hst.
Qed.

Lemma reachable_members_distinct st : reachable st → members_distinct st.
Proof.
  induction 1 as [|st sid _ IH _|st sid e _ IH].
  - intros rid r. unfold initial; simpl. by rewrite lookup_empty.
  - by apply step_members_distinct.
  - by apply step_members_distinct.
Qed.

Lemma NoDup_filter_one sid (us : list user) :
  NoDup (user_id <$> us) → sid ∈ user_id <$> us →
  length (filter (λ u, user_id u = sid) us) = 1.
Proof.
  induction us as [|u us IH]; [by intros _ ?%elem_of_nil|].
  rewrite fmap_cons, NoDup_cons, elem_of_cons, filter_cons.
  intros [Hu Hus] Hin. case_decide as Heq.
  - simpl. f_equal. apply length_zero_iff_nil, elem_of_nil_inv.
    intros v [Hv Hvin]%list_elem_of_filter. apply Hu.
    rewrite Heq, <- Hv. by apply list_elem_of_fmap_2.
  - destruct Hin as [->|Hin]; [done|]. by apply IH.
Qed.

(** ** Runs *)

Lemma run_cons st i ins :
  (run st (i :: ins)).1 = (run (step st i).1 ins).1.
Proof.
  cbn [run]. destruct (step st i) as [st1 out1]. cbn [fst].
  by destruct (run st1 ins) as [st2 out2].
Qed.

Lemma reachable_run st ins :
  reachable st → fresh st ins = true → reachable (run st ins).1.
Proof.
  revert st. induction ins as [|i ins IH]; intros st Hst Hfresh; [done|].
  rewrite run_cons. simpl in Hfresh. apply andb_true_iff in Hfresh as [Hi Hins].
  apply IH; [|done]. destruct i as [sid|sid e].
  - apply reachable_connection; [done|]. by apply bool_decide_eq_true in Hi.
  - by apply reachable_on.
Qed.

Lemma reachable_two_party : reachable two_party.
Proof.
  unfold two_party. apply reachable_run; [constructor | vm_compute; reflexivity].
Qed.

(** ** Joining *)

(** C8. A join request on a session that already has two members, from a
    connection that is not one of them, is answered with the error "Room is
    full" to the requester and nothing else: the server state (membership
    lists included) is unchanged and nothing is kept for later. *)
Theorem C8_join_at_capacity st sid sk rid uname now r :
  sockets st !! sid = Some sk →
  rooms st !! rid = Some r →
  sid ∉ user_id <$> room_users r →
  2 ≤ length (room_users r) →
  step st (on sid (join_room rid uname now))
  = (st, [(sid, error "Room is full")]).
Proof.
  intros Hsk Hr Hnot Hfull. cbn [step handle]. rewrite Hsk.
  unfold on_join_room. rewrite Hr.
  apply find_not_member in Hnot. rewrite Hnot. by rewrite decide_True.
Qed.

Lemma C8_join_at_capacity_witness :
  step three_connected (on "Z" (join_room "abc123xy" (Some "Carol") 3))
  = (three_connected, [("Z", error "Room is full")]).
Proof.
  apply (C8_join_at_capacity three_connected "Z" (Socket None None [])
           "abc123xy" (Some "Carol") 3 session_of_two).
  - vm_compute; reflexivity.
  - vm_compute; reflexivity.
  - apply (bool_decide_unpack _). vm_compute; reflexivity.
  - vm_compute; lia.
Defined.

(** C9. In a reachable state, a join request from a connection that is
    already a member of the session is answered with [room-joined] carrying
    the current membership list and the initiator flag (whether the requester
    is the first member); no error is sent, the server state is unchanged,
    and the requester occurs exactly once in the membership list. *)
Theorem C9_duplicate_join_idempotent st sid sk rid uname now r :
  reachable st →
  sockets st !! sid = Some sk →
  rooms st !! rid = Some r →
  sid ∈ user_id <$> room_users r →
  step st (on sid (join_room rid uname now))
  = (st, [(sid, room_joined rid (room_users r)
                  (bool_decide (user_id <$> head (room_users r) = Some sid)))])
  ∧ length (filter (λ u, user_id u = sid) (room_users r)) = 1.
Proof.
  intros Hreach Hsk Hr Hin. split.
  - cbn [step handle]. rewrite Hsk. unfold on_join_room. rewrite Hr.
    pose proof Hin as [u Hu]%find_member. rewrite Hu.
    destruct (room_users r) as [|v us] eqn:Hus.
    + by apply elem_of_nil in Hin.
    + repeat f_equal. simpl. apply bool_decide_ext. split; congruence.
  - apply NoDup_filter_one; [|done].
    by apply (reachable_members_distinct st Hreach rid).
Qed.

Lemma C9_duplicate_join_idempotent_witness :
  step two_party (on "Y" (join_room "abc123xy" (Some "Bob") 7))
  = (two_party,
     [("Y", room_joined "abc123xy" (room_users session_of_two)
              (bool_decide (user_id <$> head (room_users session_of_two)
                            = Some "Y")))])
  ∧ length (filter (λ u, user_id u = "Y") (room_users session_of_two)) = 1.
Proof.
  apply (C9_duplicate_join_idempotent two_party "Y"
           (Socket (Some "abc123xy") (Some "Bob") ["abc123xy"])
           "abc123xy" (Some "Bob") 7 session_of_two).
  - apply reachable_two_party.
  - vm_compute; reflexivity.
  - vm_compute; reflexivity.
  - apply (bool_decide_unpack _). vm_compute; reflexivity.
Defined.

(** ** Relaying *)

Lemma step_relayed st sid sk e t m :
  sockets st !! sid = Some sk → relayed sid e t m →
  step st (on sid e) = (st, broadcast st sid t m).
Proof. intros Hsk He. cbn [step]. rewrite Hsk. by destruct He. Qed.

(** As the claim C2 puts it, a relayed message would reach no connection but
    the one named by [targetId]. A message whose [targetId] is the
    identifier of a session reaches the other member of the session. *)
Lemma C2_counterexample :
  ¬ (∀ st sid sk o t d,
       sockets st !! sid = Some sk →
       d ∈ (step st (on sid (offer o t))).2 → d.1 = t).
Proof.
  intros H.
  specialize (H two_party "X"
                (Socket (Some "abc123xy") (Some "Alice") ["abc123xy"])
                "sdp" "abc123xy" ("Y", offer_from "sdp" "X")).
  assert ("Y" = "abc123xy") as Hbad; [|discriminate Hbad].
  apply H.
  - vm_compute; reflexivity.
  - vm_compute. constructor.
Qed.

(** C2, amended. An offer, answer or ice-candidate message is forwarded,
    each once, to exactly the connected sockets other than the sender that
    are in the Socket.IO room named by [targetId]: the socket whose id is
    [targetId], and the sockets that joined a session of that identifier. The
    server state is unchanged (nothing is queued or retried) and the sender
    gets nothing back; when no such socket is connected the message is
    dropped; and when no socket has joined a session named [targetId], the
    message reaches at most the connection named [targetId]. *)
Theorem C2_relay_to_room st sid sk e t m :
  sockets st !! sid = Some sk →
  relayed sid e t m →
  ∃ out,
    step st (on sid e) = (st, out) ∧
    NoDup out ∧
    (∀ d, d ∈ out ↔
          d.2 = m ∧ d.1 ≠ sid ∧
          ∃ rk, sockets st !! d.1 = Some rk ∧ (d.1 = t ∨ t ∈ joined rk)) ∧
    ((∀ s rk, sockets st !! s = Some rk → s ≠ sid →
              s ≠ t ∧ t ∉ joined rk) → out = []) ∧
    ((∀ s rk, sockets st !! s = Some rk → t ∉ joined rk) →
     ∀ d, d ∈ out → d.1 = t ∧ is_Some (sockets st !! t)).
Proof.
  intros Hsk He. exists (broadcast st sid t m).
  split; [by eapply step_relayed|].
  assert (∀ d, d ∈ broadcast st sid t m ↔
               d.2 = m ∧ d.1 ≠ sid ∧
               ∃ rk, sockets st !! d.1 = Some rk ∧ (d.1 = t ∨ t ∈ joined rk))
    as Hout.
  { intros d. rewrite elem_of_broadcast, elem_of_to.
    setoid_rewrite in_room_spec. tauto. }
  split; [|split; [done|split]].
  - unfold broadcast. apply NoDup_fmap_2; [|apply NoDup_to].
    by intros x y [= ->].
  - intros Hnone. apply elem_of_nil_inv. intros d Hd.
    apply Hout in Hd as (_ & Hne & rk & Hrk & Hroom).
    destruct (Hnone _ _ Hrk Hne) as [? ?]. by destruct Hroom.
  - intros Hnone d Hd.
    apply Hout in Hd as (_ & Hne & rk & Hrk & Hroom).
    destruct Hroom as [Heq|Hj]; [|by apply Hnone in Hrk].
    split; [done|]. rewrite <- Heq. eauto.
Qed.

Lemma C2_relay_to_room_witness :
  ∃ out,
    step two_party (on "X" (ice_candidate "candidate" "Y")) = (two_party, out) ∧
    NoDup out ∧
    (∀ d, d ∈ out ↔
          d.2 = ice_candidate_from "candidate" "X" ∧ d.1 ≠ "X" ∧
          ∃ rk, sockets two_party !! d.1 = Some rk ∧
                (d.1 = "Y" ∨ "Y" ∈ joined rk)) ∧
    ((∀ s rk, sockets two_party !! s = Some rk → s ≠ "X" →
              s ≠ "Y" ∧ "Y" ∉ joined rk) → out = []) ∧
    ((∀ s rk, sockets two_party !! s = Some rk → "Y" ∉ joined rk) →
     ∀ d, d ∈ out → d.1 = "Y" ∧ is_Some (sockets two_party !! "Y")).
Proof.
  apply (C2_relay_to_room two_party "X"
           (Socket (Some "abc123xy") (Some "Alice") ["abc123xy"])
           (ice_candidate "candidate" "Y") "Y"
           (ice_candidate_from "candidate" "X")).
  - vm_compute; reflexivity.
  - constructor.
Defined.

(** ** Sessions without participants *)




Lemma orderly_reachable st : orderly st → reachable st.
Proof. induction 1; by constructor. Qed.









(** ** Identifiers of new sessions *)

Lemma create_room_ignores_registry st sid sk digits now :
  sockets st !! sid = Some sk →
  step st (on sid (create_room digits now))
  = (State (<[generateRoomId digits := Room (generateRoomId digits) [] now]>
              (rooms st)) (sockets st),
     [(sid, room_created (generateRoomId digits))]).
Proof. intros Hsk. cbn [step handle]. by rewrite Hsk. Qed.

(** C4 fails on the code. While the session "k3x9q2m7b" is live with a
    member, a [create-room] whose random draw has the same first nine digits
    returns that identifier again, and the live session is replaced by an
    empty one. *)
Theorem C4_identifier_collides :
  let st := (run initial [connection "X";
                          on "X" (create_room "k3x9q2m7bfa" 0);
                          on "X" (join_room "k3x9q2m7b" (Some "Alice") 1);
                          connection "Y"]).1 in
  room_users <$> rooms st !! "k3x9q2m7b" = Some [User "X" "Alice" 1] ∧
  (step st (on "Y" (create_room "k3x9q2m7b0z" 5))).2
  = [("Y", room_created "k3x9q2m7b")] ∧
  room_users <$> rooms (step st (on "Y" (create_room "k3x9q2m7b0z" 5))).1
                   !! "k3x9q2m7b" = Some [].
Proof. vm_compute. done. Qed.

End ServerFacts.

(* ===================================================================== *)
(** * Properties of the client *)
(* ===================================================================== *)

Module ClientFacts.
Import Client.

(** ** Effects and console lines *)

Lemma forget_tell a st : forget (tell a st) = forget st.
Proof. reflexivity. Qed.

Lemma emitted_tell a st :
  emitted (tell a st)
  = emitted st ++ match a with emit m => [m] | _ => [] end.
Proof. unfold emitted. cbn [tell trace]. rewrite omap_app. by destruct a. Qed.

Lemma silent_tell_console line st : silent (tell (console line) st) = silent st.
Proof.
  unfold silent. cbn [tell trace socketRef peerConnectionRef localStreamRef
    currentRoomIdRef localStream remoteStream isConnected users
    isScreenSharing connectionStatus].
  rewrite filter_app. cbn. by rewrite app_nil_r.
Qed.

Lemma silent_tell a st1 st2 :
  silent st1 = silent st2 → silent (tell a st1) = silent (tell a st2).
Proof.
  unfold silent. intros H. injection H as ? ? ? ? ? ? ? ? ? ? Htr. cbn.
  rewrite !filter_app, Htr. congruence.
Qed.

Lemma silent_set_peerConnectionRef p st1 st2 :
  silent st1 = silent st2 →
  silent (set_peerConnectionRef p st1) = silent (set_peerConnectionRef p st2).
Proof.
  unfold silent. intros H. injection H as ? ? ? ? ? ? ? ? ? ? Htr. cbn.
  rewrite Htr. congruence.
Qed.

Lemma silent_peerConnectionRef st1 st2 :
  silent st1 = silent st2 → peerConnectionRef st1 = peerConnectionRef st2.
Proof. unfold silent. intros H. by injection H. Qed.

(** ** Received answers and candidates *)

Lemma handleAnswer_silent B st1 st2 a :
  silent st1 = silent st2 →
  silent (handleAnswer B st1 a) = silent (handleAnswer B st2 a).
Proof.
  intros H. unfold handleAnswer. cbn [tell peerConnectionRef].
  rewrite (silent_peerConnectionRef _ _ H).
  destruct (peerConnectionRef st2) as [p|]; [|by apply silent_tell].
  destruct (setRemoteDescription_ok B p a);
    auto using silent_tell, silent_set_peerConnectionRef.
Qed.

Lemma handleIceCandidate_silent B st1 st2 c :
  silent st1 = silent st2 →
  silent (handleIceCandidate B st1 c) = silent (handleIceCandidate B st2 c).
Proof.
  intros H. unfold handleIceCandidate.
  rewrite (silent_peerConnectionRef _ _ H).
  destruct (peerConnectionRef st2) as [p|]; [|done].
  destruct (addIceCandidate_ok B p c);
    auto using silent_tell, silent_set_peerConnectionRef.
Qed.

(** C10. The handling of a received answer and of a received candidate does
    not depend on the sender id: for two sender ids the resulting states
    agree on everything but the console line naming the sender. An answer is
    applied as remote description, and a candidate is added, whenever there is
    a peer connection and the browser accepts it, whoever the sender is. *)
Theorem C10_sender_not_checked B st a c s1 s2 :
  silent (on_answer B st a s1) = silent (on_answer B st a s2) ∧
  silent (on_ice_candidate B st c s1) = silent (on_ice_candidate B st c s2) ∧
  peerConnectionRef (on_answer B st a s1)
  = (λ p, if setRemoteDescription_ok B p a
          then Peer (localDescription p) (Some a) (senders p)
                    (remoteCandidates p)
          else p) <$> peerConnectionRef st ∧
  peerConnectionRef (on_ice_candidate B st c s1)
  = (λ p, if addIceCandidate_ok B p c
          then Peer (localDescription p) (remoteDescription p) (senders p)
                    (remoteCandidates p ++ [c])
          else p) <$> peerConnectionRef st.
Proof.
  repeat split.
  - apply handleAnswer_silent. by rewrite !silent_tell_console.
  - apply handleIceCandidate_silent. by rewrite !silent_tell_console.
  - unfold on_answer, handleAnswer. cbn [tell peerConnectionRef].
    destruct (peerConnectionRef st) as [p|] eqn:Hp; cbn; [|done].
    by destruct (setRemoteDescription_ok B p a).
  - unfold on_ice_candidate, handleIceCandidate. cbn [tell peerConnectionRef].
    destruct (peerConnectionRef st) as [p|] eqn:Hp; cbn; [|done].
    by destruct (addIceCandidate_ok B p c).
Qed.

(** ** The record of effects *)

Lemma tell_extend a st : tell a st = extend st [a].
Proof. reflexivity. Qed.

Lemma extend_extend st l1 l2 : extend (extend st l1) l2 = extend st (l1 ++ l2).
Proof. unfold extend; cbn. by rewrite app_assoc. Qed.

Lemma extend_set_peerConnectionRef p st l :
  extend (set_peerConnectionRef p st) l = set_peerConnectionRef p (extend st l).
Proof. reflexivity. Qed.

Lemma set_peerConnectionRef_twice p q st :
  set_peerConnectionRef p (set_peerConnectionRef q st)
  = set_peerConnectionRef p st.
Proof. reflexivity. Qed.

Lemma add_tracks_extend st (tracks : list track) :
  ∃ pre,
    foldl (λ st t,
             tell (addTrack t)
               (tell (console ("Adding track to peer connection: "
                               +:+ kind_name (track_kind t))) st))
          st tracks = extend st pre
    ∧ Forall (λ a, is_setup a = true) pre.
Proof.
  revert st. induction tracks as [|t tracks IH]; intros st.
  - exists []. split; [|constructor]. unfold extend. rewrite app_nil_r.
    by destruct st.
  - cbn [foldl]. destruct (IH (tell (addTrack t)
      (tell (console ("Adding track to peer connection: "
                      +:+ kind_name (track_kind t))) st))) as (pre & -> & Hpre).
    eexists. rewrite !tell_extend, !extend_extend. split; [done|].
    by repeat constructor.
Qed.

Lemma ensurePeerConnection_extend st :
  ∃ pre,
    ensurePeerConnection st
    = (set_peerConnectionRef (Some (connection_for st)) (extend st pre),
       connection_for st)
    ∧ Forall (λ a, is_setup a = true) pre.
Proof.
  unfold ensurePeerConnection, connection_for.
  destruct (peerConnectionRef st) as [p|] eqn:Hp.
  - exists []. split; [|constructor]. f_equal.
    unfold extend, set_peerConnectionRef; cbn. rewrite app_nil_r, <- Hp.
    by destruct st.
  - unfold createPeerConnection. cbn [tell localStreamRef].
    destruct (add_tracks_extend
                (tell new_RTCPeerConnection
                   (tell (console "Creating peer connection...") st))
                (default [] (localStreamRef st))) as (pre & -> & Hpre).
    eexists. rewrite !tell_extend, !extend_extend. split; [done|].
    by repeat constructor.
Qed.

(** ** Remote candidates *)

Lemma initializeMedia_peerConnectionRef st gum :
  peerConnectionRef (initializeMedia st gum).1 = peerConnectionRef st.
Proof. by destruct gum. Qed.

Lemma remote_candidates_connection_for st :
  remoteCandidates (connection_for st) = remote_candidates st.
Proof.
  unfold connection_for, remote_candidates.
  by destruct (peerConnectionRef st).
Qed.

Lemma createOffer_remote_candidates B st u :
  remote_candidates (createOffer B st u) = remote_candidates st.
Proof.
  unfold createOffer.
  destruct (ensurePeerConnection_extend
              (tell (console ("Creating offer for user: " +:+ u)) st))
    as (pre & -> & _).
  rewrite <- (remote_candidates_connection_for st).
  change (connection_for (tell _ st)) with (connection_for st).
  destruct (createOffer_result B (connection_for st)) as [o|]; [|done].
  destruct (setLocalDescription_ok B (connection_for st) o); [|done].
  cbn [set_peerConnectionRef tell extend socketRef].
  by destruct (socketRef st).
Qed.

Lemma handleOffer_remote_candidates B st o s :
  remote_candidates (handleOffer B st o s) = remote_candidates st.
Proof.
  unfold handleOffer.
  destruct (ensurePeerConnection_extend
              (tell (console ("Handling offer from: " +:+ s)) st))
    as (pre & -> & _).
  rewrite <- (remote_candidates_connection_for st).
  change (connection_for (tell _ st)) with (connection_for st).
  destruct (setRemoteDescription_ok B (connection_for st) o); [|done].
  cbn [localDescription remoteDescription senders remoteCandidates].
  destruct (createAnswer_result B _) as [a|]; [|done].
  destruct (setLocalDescription_ok B _ a); [|done].
  cbn [set_peerConnectionRef tell extend socketRef].
  by destruct (socketRef st).
Qed.

Lemma toggleScreenShare_remote_candidates B st d g :
  remote_candidates (toggleScreenShare B st d g) = remote_candidates st.
Proof.
  unfold toggleScreenShare. destruct (isScreenSharing st); cbn [negb].
  - unfold remote_candidates.
    destruct (initializeMedia _ g) as [st' r] eqn:Hm.
    assert (peerConnectionRef st' = peerConnectionRef st) as <-.
    { change st' with (st', r).1. rewrite <- Hm.
      by rewrite initializeMedia_peerConnectionRef. }
    by destruct r.
  - destruct d as [screenStream|]; [|done].
    cbn [tell peerConnectionRef localStreamRef].
    unfold remote_candidates.
    destruct (peerConnectionRef st) as [p|] eqn:Hp;
      [destruct (localStreamRef st) as [ls|];
       [destruct (find_index is_video_sender (senders p)) as [i|];
        [destruct (replaceTrack_ok B p i _)|]|]|];
      destruct (head (getVideoTracks screenStream)); cbn; by rewrite ?Hp.
Qed.

Lemma step_remote_candidates B st i :
  remote_candidates (step B st i) = remote_candidates st
  ∨ remote_candidates (step B st i) = []
  ∨ ∃ c s, i = ice_candidate_from c s
           ∧ remote_candidates (step B st i) = remote_candidates st ++ [c].
Proof.
  destruct i; cbn [step].
  - left. unfold remote_candidates.
    by rewrite initializeMedia_peerConnectionRef.
  - left. unfold initializeSocket. by destruct (socketRef st) as [[]|].
  - by left.
  - by left.
  - by left.
  - by left.
  - left. unfold createRoom. by destruct (socketRef st).
  - by left.
  - left. unfold joinRoom. by destruct (socketRef st).
  - by left.
  - by left.
  - left. unfold on_offer_timer.
    destruct (peerConnectionRef st), (localStreamRef st);
      auto using createOffer_remote_candidates.
  - right; left. unfold on_user_left, remote_candidates.
    cbn [tell setConnectionStatus setRemoteStream peerConnectionRef].
    destruct (peerConnectionRef st) eqn:Hp; cbn; by rewrite ?Hp.
  - left. unfold on_offer. by rewrite handleOffer_remote_candidates.
  - left. unfold on_answer, handleAnswer, remote_candidates.
    cbn [tell peerConnectionRef].
    destruct (peerConnectionRef st) as [p|] eqn:Hp; cbn; [|by rewrite Hp].
    destruct (setRemoteDescription_ok B p a); cbn; by rewrite ?Hp.
  - unfold on_ice_candidate, handleIceCandidate, remote_candidates.
    cbn [tell peerConnectionRef].
    destruct (peerConnectionRef st) as [p|] eqn:Hp; cbn;
      [|left; by rewrite Hp].
    destruct (addIceCandidate_ok B p c); cbn; [|left; by rewrite Hp].
    right; right. by exists c, senderId.
  - left. unfold onicecandidate. destruct c as [c|]; [|done].
    by destruct (socketRef st).
  - by left.
  - left. apply toggleScreenShare_remote_candidates.
  - left. unfold on_screen_share_ended, remote_candidates.
    by rewrite initializeMedia_peerConnectionRef.
Qed.

(** As the claim C5 puts it, a candidate that arrives before a remote
    description is set would be applied once one is. A candidate received
    before the offer is not among the candidates of the connection after
    the offer has been applied. *)
Lemma C5_counterexample :
  let st := run permissive initial
                [socket_initialized; socket_connect;
                 ice_candidate_from "c0" "X"; offer_from "o" "X"] in
  ∃ p, peerConnectionRef st = Some p
       ∧ remoteDescription p = Some "o"
       ∧ "c0" ∉ remoteCandidates p.
Proof.
  eexists. split; [vm_compute; reflexivity|]. split; [reflexivity|].
  cbn. apply not_elem_of_nil.
Qed.

(** C5, amended. A received candidate is passed to [addIceCandidate] at once
    when a peer connection exists, and joins the candidates of the connection
    when that call resolves. The client keeps no buffer: when there is no
    peer connection, or the call rejects, the state a later handler reads is
    unchanged (the rejection is logged), and no step adds to the connection a
    candidate other than the one carried by the event it handles. *)
Theorem C5_candidates_not_buffered B st c s :
  match peerConnectionRef st with
  | None => forget (on_ice_candidate B st c s) = forget st
  | Some p =>
    if addIceCandidate_ok B p c then
      forget (on_ice_candidate B st c s)
      = forget (set_peerConnectionRef
                  (Some (Peer (localDescription p) (remoteDescription p)
                              (senders p) (remoteCandidates p ++ [c]))) st)
    else
      forget (on_ice_candidate B st c s) = forget st
      ∧ last (trace (on_ice_candidate B st c s))
        = Some (console "Error handling ICE candidate")
  end
  ∧ ∀ i,
      remote_candidates (step B st i) = remote_candidates st
      ∨ remote_candidates (step B st i) = []
      ∨ ∃ c' s', i = ice_candidate_from c' s'
                 ∧ remote_candidates (step B st i)
                   = remote_candidates st ++ [c'].
Proof.
  split; [|apply step_remote_candidates].
  unfold on_ice_candidate, handleIceCandidate. cbn [tell peerConnectionRef].
  destruct (peerConnectionRef st) as [p|]; [|done].
  destruct (addIceCandidate_ok B p c); [done|].
  split; [done|]. cbn [tell trace]. apply last_snoc.
Qed.

(** ** Received offers *)

Lemma on_offer_trace B st o s :
  ∃ pre,
    trace (on_offer B st o s) = trace st ++ pre ++ negotiation B st o s
    ∧ Forall (λ a, is_setup a = true) pre.
Proof.
  unfold on_offer, handleOffer, negotiation.
  destruct (ensurePeerConnection_extend
              (tell (console ("Handling offer from: " +:+ s))
                 (tell (console ("Received offer from: " +:+ s)) st)))
    as (pre & -> & Hpre).
  change (connection_for (tell _ (tell _ st))) with (connection_for st).
  exists ([console ("Received offer from: " +:+ s);
           console ("Handling offer from: " +:+ s)] ++ pre).
  split; [|by repeat constructor].
  fold (with_remote o (connection_for st)).
  destruct (setRemoteDescription_ok B (connection_for st) o).
  - destruct (createAnswer_result B _) as [a|].
    + destruct (setLocalDescription_ok B _ a).
      * cbn [set_peerConnectionRef tell extend socketRef trace].
        destruct (socketRef st); cbn [tell trace]; by simplify_list_eq.
      * cbn. by simplify_list_eq.
    + cbn. by simplify_list_eq.
  - cbn. by simplify_list_eq.
Qed.

Lemma on_offer_accepted B st o s a :
  setRemoteDescription_ok B (connection_for st) o = true →
  createAnswer_result B (with_remote o (connection_for st)) = Some a →
  setLocalDescription_ok B (with_remote o (connection_for st)) a = true →
  peerConnectionRef (on_offer B st o s)
  = Some (with_local a (with_remote o (connection_for st))).
Proof.
  intros Hr Ha Hl. unfold on_offer, handleOffer.
  destruct (ensurePeerConnection_extend
              (tell (console ("Handling offer from: " +:+ s))
                 (tell (console ("Received offer from: " +:+ s)) st)))
    as (pre & -> & _).
  change (connection_for (tell _ (tell _ st))) with (connection_for st).
  fold (with_remote o (connection_for st)). rewrite Hr, Ha, Hl.
  cbn [set_peerConnectionRef tell extend socketRef].
  by destruct (socketRef st).
Qed.

(** Where an action that is no part of [pre] sits in [pre ++ core]. *)
Lemma split_after_prefix {A} (pre core t1 t2 : list A) x :
  pre ++ core = t1 ++ x :: t2 → x ∉ pre →
  ∃ k, core !! k = Some x ∧ t1 = pre ++ take k core ∧ t2 = drop (S k) core.
Proof.
  revert t1. induction pre as [|y pre IH]; intros t1 Heq Hx.
  - exists (length t1). cbn in Heq. subst core. clear.
    induction t1 as [|z t1 (? & ? & ?)]; cbn; [done|].
    split_and!; [done | by f_equal | done].
  - destruct t1 as [|z t1]; cbn in Heq.
    + injection Heq as -> _. destruct Hx. by left.
    + injection Heq as -> Heq. destruct (IH t1 Heq) as (k & ? & -> & ->).
      * intros ?. apply Hx. by right.
      * by exists k.
Qed.

(** C7. For every offer received: when an answer is constructed, the offer
    has been applied as remote description before; a message is emitted only
    as the last effect, and it is the answer, targeted at the sender of the
    offer, constructed earlier and applied as local description in between;
    and when the browser accepts the offer, produces an answer and accepts
    it as local description, the connection ends with both descriptions set
    and the effects are, in this order: set the remote description, create
    the answer, set the local description, emit the answer to the sender. *)
Theorem C7_answer_after_offer_applied B st o s :
  ∃ new,
    trace (on_offer B st o s) = trace st ++ new ∧
    (∀ t1 r t2, new = t1 ++ createAnswer_call r :: t2 →
                setRemoteDescription o true ∈ t1) ∧
    (∀ t1 m t2, new = t1 ++ emit m :: t2 →
       t2 = [] ∧
       ∃ a u1 u2, m = answer a s
                  ∧ t1 = u1 ++ createAnswer_call (Some a) :: u2
                  ∧ setLocalDescription a true ∈ u2) ∧
    (∀ a, is_Some (socketRef st) →
          setRemoteDescription_ok B (connection_for st) o = true →
          createAnswer_result B (with_remote o (connection_for st)) = Some a →
          setLocalDescription_ok B (with_remote o (connection_for st)) a
          = true →
          peerConnectionRef (on_offer B st o s)
          = Some (with_local a (with_remote o (connection_for st)))
          ∧ ∃ pre, new = pre ++ [setRemoteDescription o true;
                                 createAnswer_call (Some a);
                                 setLocalDescription a true;
                                 emit (answer a s)]
                   ∧ Forall (λ x, is_setup x = true) pre).
Proof.
  destruct (on_offer_trace B st o s) as (pre & Htrace & Hpre).
  exists (pre ++ negotiation B st o s). split; [done|].
  assert (∀ x, is_setup x = false → x ∉ pre) as Hnot.
  { intros x Hx Hin. rewrite Forall_forall in Hpre.
    apply Hpre in Hin. congruence. }
  split; [|split].
  - intros t1 r t2 Heq.
    apply split_after_prefix in Heq as (k & Hk & -> & _); [|by apply Hnot].
    apply elem_of_app; right. revert Hk. unfold negotiation.
    repeat case_match; destruct k as [|[|[|[|k]]]]; cbn; intros [=];
      by left.
  - intros t1 m t2 Heq.
    apply split_after_prefix in Heq as (k & Hk & -> & ->); [|by apply Hnot].
    revert Hk. unfold negotiation.
    repeat case_match; destruct k as [|[|[|[|k]]]]; cbn; intros [=]; subst.
    split; [done|].
    eexists _, (pre ++ [setRemoteDescription o true]), _.
    split; [done|]. split; [by rewrite <- app_assoc|]. by left.
  - intros a Hsock Hr Ha Hl. split; [by apply on_offer_accepted|].
    exists pre. split; [|done]. unfold negotiation.
    destruct Hsock as [connected Hsock]. by rewrite Hr, Ha, Hl, Hsock.
Qed.

Lemma C7_answer_after_offer_applied_witness :
  ∃ new,
    trace (on_offer permissive ready "o" "X") = trace ready ++ new ∧
    peerConnectionRef (on_offer permissive ready "o" "X")
    = Some (with_local "answer-sdp" (with_remote "o" (connection_for ready)))
    ∧ ∃ pre, new = pre ++ [setRemoteDescription "o" true;
                           createAnswer_call (Some "answer-sdp");
                           setLocalDescription "answer-sdp" true;
                           emit (answer "answer-sdp" "X")]
             ∧ Forall (λ x, is_setup x = true) pre.
Proof.
  destruct (C7_answer_after_offer_applied permissive ready "o" "X")
    as (new & Htrace & _ & _ & Hlive).
  exists new. split; [exact Htrace|].
  apply Hlive; [by exists true | reflexivity..].
Defined.

(** ** Local candidates *)

Lemma onicecandidate_emitted st c :
  is_Some (socketRef st) →
  emitted (onicecandidate st (Some c))
  = emitted st ++ [ice_candidate c "broadcast"].
Proof.
  intros [connected Hs]. unfold onicecandidate. rewrite Hs.
  rewrite !emitted_tell. by rewrite app_nil_r.
Qed.

(** ** Screen sharing *)

Lemma initializeMedia_emitted st gum :
  emitted (initializeMedia st gum).1 = emitted st.
Proof.
  destruct gum; unfold initializeMedia; cbn [fst];
    change (emitted (setConnectionStatus ?s ?st)) with (emitted st);
    change (emitted (setLocalStream ?s ?st)) with (emitted st);
    rewrite !emitted_tell;
    change (emitted (setConnectionStatus ?s ?st)) with (emitted st);
    rewrite ?emitted_tell; by rewrite ?app_nil_r.
Qed.

(** Toggling the screen share emits nothing on the signaling socket. *)
Lemma toggleScreenShare_emitted B st d g :
  emitted (toggleScreenShare B st d g) = emitted st.
Proof.
  unfold toggleScreenShare. destruct (isScreenSharing st); cbn [negb].
  - destruct (initializeMedia _ g) as [st' r] eqn:Hm.
    assert (emitted st' = emitted st) as Hst'.
    { change st' with (st', r).1. rewrite <- Hm, initializeMedia_emitted.
      change (emitted (setIsScreenSharing ?b ?st)) with (emitted st).
      by rewrite emitted_tell, app_nil_r. }
    destruct r; [done|]. by rewrite emitted_tell, app_nil_r.
  - destruct d as [screenStream|]; [|by rewrite !emitted_tell, !app_nil_r].
    cbn [tell peerConnectionRef localStreamRef].
    destruct (peerConnectionRef st) as [p|];
      [destruct (localStreamRef st) as [ls|];
       [destruct (find_index is_video_sender (senders p)) as [i|];
        [destruct (replaceTrack_ok B p i _)|]|]|];
      destruct (head (getVideoTracks screenStream));
      change (emitted (setIsScreenSharing ?b ?st)) with (emitted st);
      change (emitted (set_peerConnectionRef ?b ?st)) with (emitted st);
      rewrite ?emitted_tell;
      change (emitted (setIsScreenSharing ?b ?st)) with (emitted st);
      change (emitted (set_peerConnectionRef ?b ?st)) with (emitted st);
      rewrite ?emitted_tell; by rewrite ?app_nil_r.
Qed.

(** Starting a share with a connection that has a video sender puts the
    screen track on that sender, in place. *)
Lemma toggleScreenShare_start B st screenStream g p ls i :
  isScreenSharing st = false →
  peerConnectionRef st = Some p → localStreamRef st = Some ls →
  find_index is_video_sender (senders p) = Some i →
  replaceTrack_ok B p i (head (getVideoTracks screenStream)) = true →
  peerConnectionRef (toggleScreenShare B st (Some screenStream) g)
  = Some (Peer (localDescription p) (remoteDescription p)
               (<[i := head (getVideoTracks screenStream)]> (senders p))
               (remoteCandidates p)).
Proof.
  intros Hs Hp Hl Hi Hr. unfold toggleScreenShare. rewrite Hs. cbn [negb].
  cbn [tell peerConnectionRef localStreamRef]. rewrite Hp, Hl, Hi, Hr.
  by destruct (head (getVideoTracks screenStream)).
Qed.

(** Starting a share without a video sender leaves the connection alone. *)
Lemma toggleScreenShare_no_sender B st d g :
  isScreenSharing st = false →
  from_option (λ p, find_index is_video_sender (senders p)) None
              (peerConnectionRef st) = None →
  peerConnectionRef (toggleScreenShare B st d g) = peerConnectionRef st.
Proof.
  intros Hs Hnone. unfold toggleScreenShare. rewrite Hs. cbn [negb].
  destruct d as [screenStream|]; [|done].
  cbn [tell peerConnectionRef localStreamRef].
  destruct (peerConnectionRef st) as [p|] eqn:Hp; cbn in Hnone.
  - rewrite Hnone. destruct (localStreamRef st);
      destruct (head (getVideoTracks screenStream)); cbn; by rewrite ?Hp.
  - destruct (head (getVideoTracks screenStream)); cbn; by rewrite ?Hp.
Qed.

(** Stopping a share never touches the connection. *)
Lemma toggleScreenShare_stop B st d g :
  isScreenSharing st = true →
  peerConnectionRef (toggleScreenShare B st d g) = peerConnectionRef st.
Proof.
  intros Hs. unfold toggleScreenShare. rewrite Hs. cbn [negb].
  destruct (initializeMedia _ g) as [st' r] eqn:Hm.
  assert (peerConnectionRef st' = peerConnectionRef st) as <-.
  { change st' with (st', r).1. rewrite <- Hm.
    by rewrite initializeMedia_peerConnectionRef. }
  by destruct r.
Qed.

(** C6 fails on the code. A client in a call shares its screen: the video
    sender gets the screen track in place and no message is emitted. It then
    stops sharing: the camera is acquired again as the local stream, but the
    video sender still holds the screen track and [replaceTrack] is not
    called a second time. *)
Theorem C6_revert_keeps_screen_track :
  let in_call := step permissive ready (offer_from "o" "X") in
  let sharing :=
    step permissive in_call (screen_share_toggled (Some screen) (inl camera)) in
  let reverted :=
    step permissive sharing (screen_share_toggled None (inl camera)) in
  senders <$> peerConnectionRef in_call
  = Some [Some (Track audio "microphone"); Some (Track video "camera")] ∧
  senders <$> peerConnectionRef sharing
  = Some [Some (Track audio "microphone"); Some (Track video "screen")] ∧
  emitted sharing = emitted in_call ∧
  isScreenSharing sharing = true ∧
  isScreenSharing reverted = false ∧
  localStream reverted = Some camera ∧
  senders <$> peerConnectionRef reverted
  = Some [Some (Track audio "microphone"); Some (Track video "screen")] ∧
  filter (λ a, is_setup a = false) (trace reverted)
  = filter (λ a, is_setup a = false) (trace sharing).
Proof. vm_compute. done. Qed.

End ClientFacts.

(* ===================================================================== *)
(** * Properties of client and server together *)
(* ===================================================================== *)

Module EndToEndFacts.
Import EndToEnd.

(** C1 fails on the code. The client "Y" of a two-party session receives an
    offer from "X" and then gathers a candidate. Its answer is targeted at
    "X" and the server delivers it to "X"; the candidate is targeted at the
    fixed string "broadcast" and the server delivers it to nobody. *)
Theorem C1_candidate_targets_broadcast :
  let st := Client.run Client.permissive Client.ready
              [Client.offer_from "o" "X"; Client.icecandidate (Some "c1")] in
  Client.emitted st
  = [Client.answer "answer-sdp" "X"; Client.ice_candidate "c1" "broadcast"] ∧
  deliveries Server.two_party "Y" (Client.emitted st)
  = [("X", Server.answer_from "answer-sdp" "Y")].
Proof. vm_compute. done. Qed.

End EndToEndFacts.

(* ===================================================================== *)
(** * Further properties of the server *)
(* ===================================================================== *)

Module ServerExtras.
Import Server ServerTerms ServerFacts.

(** ** How sessions come about *)

Lemma display_name_nonempty uname n : display_name uname n ≠ "".
Proof.
  unfold display_name, truthy. destruct uname as [s|]; [|done].
  by case_decide.
Qed.

(** Every session of the registry after a step was there before, or is
    new and empty, or is an earlier one with a member appended or with a
    socket filtered out. *)
Lemma step_rooms st i rid r' :
  rooms (step st i).1 !! rid = Some r' →
  rooms st !! rid = Some r'
  ∨ (∃ now, r' = Room rid [] now)
  ∨ (∃ r u, rooms st !! rid = Some r ∧ r' = with_member u r
            ∧ (user_id u ∉ user_id <$> room_users r)
            ∧ length (room_users r) < 2 ∧ user_name u ≠ "")
  ∨ (∃ r sid, rooms st !! rid = Some r ∧ r' = without sid r).
Proof.
  destruct i as [sid|sid e]; cbn [step fst]; [by left|].
  destruct (sockets st !! sid) as [sk|]; [|by left].
  destruct e; cbn [handle relay fst]; try by left.
  - unfold on_create_room; cbn.
    destruct (decide (generateRoomId digits = rid)) as [->|Hne].
    + rewrite lookup_insert_eq. intros [= <-]. right; left. by exists now.
    + rewrite lookup_insert_ne by done. by left.
  - unfold on_join_room. destruct (rooms st !! rid0) as [r|] eqn:Hr; [|by left].
    destruct (find _ (room_users r)) eqn:Hfind; [by left|].
    case_decide as Hlen; [by left|]. cbn.
    destruct (decide (rid0 = rid)) as [->|Hne].
    + rewrite lookup_insert_eq. intros [= <-]. right; right; left.
      eexists r, _. split; [done|]. split; [done|]. cbn.
      split; [by apply find_not_member|].
      split; [lia | apply display_name_nonempty].
    + rewrite lookup_insert_ne by done. by left.
  - unfold on_user_status. destruct (truthy (roomId sk)); by left.
  - unfold on_disconnect. destruct (truthy (roomId sk)) as [rid0|]; [|by left].
    destruct (rooms st !! rid0) as [r|] eqn:Hr; [|by left].
    case_decide as Hlen; cbn.
    + destruct (decide (rid0 = rid)) as [->|Hne].
      * by rewrite lookup_delete_eq.
      * rewrite lookup_delete_ne by done. by left.
    + destruct (decide (rid0 = rid)) as [->|Hne].
      * rewrite lookup_insert_eq. intros [= <-]. right; right; right.
        by exists r, sid.
      * rewrite lookup_insert_ne by done. by left.
Qed.

(** An induction principle for properties of sessions. *)
Lemma reachable_rooms (P : string → room → Prop) :
  (∀ rid now, P rid (Room rid [] now)) →
  (∀ rid r u, P rid r → user_id u ∉ user_id <$> room_users r →
              length (room_users r) < 2 → user_name u ≠ "" →
              P rid (with_member u r)) →
  (∀ rid r sid, P rid r → P rid (without sid r)) →
  ∀ st, reachable st → ∀ rid r, rooms st !! rid = Some r → P rid r.
Proof.
  intros Hnew Hadd Hdel st Hst.
  assert (∀ st i, (∀ rid r, rooms st !! rid = Some r → P rid r) →
                  ∀ rid r, rooms (step st i).1 !! rid = Some r → P rid r)
    as Hstep.
  { clear st Hst. intros st i IH rid r' Hr'.
    apply step_rooms in Hr' as [?|[[now ->]|[(r & u & ? & -> & ? & ? & ?)
                                             |(r & sid & ? & ->)]]]; eauto. }
  induction Hst as [|st sid _ IH _|st sid e _ IH]; [|by eauto..].
  intros rid r. unfold initial; cbn. by rewrite lookup_empty.
Qed.

(** X1. In every reachable state a session has at most two members. *)
Theorem X1_capacity_invariant st rid r :
  reachable st → rooms st !! rid = Some r → length (room_users r) ≤ 2.
Proof.
  intros Hst. revert rid r.
  apply (reachable_rooms (λ _ r, length (room_users r) ≤ 2)); [| | |done].
  - intros; cbn; lia.
  - intros rid r u IH _ Hlen _. cbn. rewrite length_app. cbn. lia.
  - intros rid r sid IH. cbn.
    etrans; [apply length_filter|done].
Qed.

Lemma X1_capacity_invariant_witness : length (room_users session_of_two) ≤ 2.
Proof.
  apply (X1_capacity_invariant two_party "abc123xy" session_of_two).
  - apply reachable_two_party.
  - vm_compute; reflexivity.
Defined.

(** X2. In every reachable state a session is stored under its own
    identifier, and every member has a non-empty display name. *)
Theorem X2_sessions_well_formed st rid r :
  reachable st → rooms st !! rid = Some r →
  room_id r = rid ∧ ∀ u, u ∈ room_users r → user_name u ≠ "".
Proof.
  intros Hst. revert rid r.
  apply (reachable_rooms
           (λ rid r, room_id r = rid
                     ∧ ∀ u, u ∈ room_users r → user_name u ≠ ""));
    [| | |done].
  - intros rid now. split; [done|]. by intros u ?%elem_of_nil.
  - intros rid r u [Hid Hnames] _ _ Hu. split; [done|]. cbn.
    intros v [?| ->%list_elem_of_singleton]%elem_of_app; by auto.
  - intros rid r sid [Hid Hnames]. split; [done|]. cbn.
    intros v [_ ?]%list_elem_of_filter. by auto.
Qed.

Lemma X2_sessions_well_formed_witness :
  room_id session_of_two = "abc123xy"
  ∧ ∀ u, u ∈ room_users session_of_two → user_name u ≠ "".
Proof.
  apply (X2_sessions_well_formed two_party "abc123xy" session_of_two).
  - apply reachable_two_party.
  - vm_compute; reflexivity.
Defined.

(** ** What the server keeps on a socket *)

Lemma step_sockets st i s sk' :
  sockets (step st i).1 !! s = Some sk' →
  sockets st !! s = Some sk'
  ∨ sk' = Socket None None []
  ∨ ∃ sk rid n, sockets st !! s = Some sk ∧ n ≠ ""
                ∧ sk' = Socket (Some rid) (Some n) (joined sk ++ [rid]).
Proof.
  destruct i as [sid|sid e]; cbn [step fst sockets].
  - destruct (decide (sid = s)) as [->|Hne].
    + rewrite lookup_insert_eq. intros [= <-]. by right; left.
    + rewrite lookup_insert_ne by done. by left.
  - destruct (sockets st !! sid) as [sk|] eqn:Hsk; [|by left].
    destruct e; cbn [handle relay fst]; try by left.
    + unfold on_join_room. destruct (rooms st !! rid) as [r|]; [|by left].
      destruct (find _ (room_users r)); [by left|].
      case_decide; [by left|]. cbn.
      destruct (decide (sid = s)) as [->|Hne].
      * rewrite lookup_insert_eq. intros [= <-]. right; right.
        eexists sk, rid, _. split; [done|].
        split; [apply display_name_nonempty | done].
      * rewrite lookup_insert_ne by done. by left.
    + unfold on_user_status. destruct (truthy (roomId sk)); by left.
    + assert (delete sid (sockets st) !! s = Some sk' →
              sockets st !! s = Some sk') as Hdel.
      { destruct (decide (sid = s)) as [->|Hne].
        - by rewrite lookup_delete_eq.
        - by rewrite lookup_delete_ne. }
      unfold on_disconnect. destruct (truthy (roomId sk)); cbn;
        [destruct (rooms st !! _); [case_decide|]|]; cbn; by auto.
Qed.

(** X3. In every reachable state, the session recorded on a socket as its
    current one is the Socket.IO room it entered last, and the socket carries
    a user name exactly when it carries a current session. *)
Theorem X3_socket_record_invariant st sid sk :
  reachable st → sockets st !! sid = Some sk →
  last (joined sk) = roomId sk
  ∧ (is_Some (userName sk) ↔ is_Some (roomId sk)).
Proof.
  intros Hst. revert sid sk.
  induction Hst as [|st s _ IH _|st s e _ IH]; intros sid sk.
  - unfold initial; cbn. by rewrite lookup_empty.
  - intros [?|[->|(sk0 & rid & n & ? & _ & ->)]]%step_sockets; [by eauto| |].
    + cbn. split; [done|]. by split; intros [? ?].
    + cbn. rewrite last_snoc. split; [done|]. by split; eauto.
  - intros [?|[->|(sk0 & rid & n & ? & _ & ->)]]%step_sockets; [by eauto| |].
    + cbn. split; [done|]. by split; intros [? ?].
    + cbn. rewrite last_snoc. split; [done|]. by split; eauto.
Qed.

Lemma X3_socket_record_invariant_witness :
  last ["abc123xy"] = Some "abc123xy"
  ∧ (is_Some (Some "Bob") ↔ is_Some (Some "abc123xy")).
Proof.
  apply (X3_socket_record_invariant two_party "Y"
           (Socket (Some "abc123xy") (Some "Bob") ["abc123xy"])).
  - apply reachable_two_party.
  - vm_compute; reflexivity.
Defined.

(** ** Joining *)

(** X4. A join request for an identifier that names no session is answered
    with the error "Room not found" to the requester alone, and changes
    nothing. *)
Theorem X4_join_missing_session st sid sk rid uname now :
  sockets st !! sid = Some sk →
  rooms st !! rid = None →
  step st (on sid (join_room rid uname now))
  = (st, [(sid, error "Room not found")]).
Proof.
  intros Hsk Hr. cbn [step handle]. rewrite Hsk.
  unfold on_join_room. by rewrite Hr.
Qed.

Lemma X4_join_missing_session_witness :
  step two_party (on "Y" (join_room "nosuchid" None 9))
  = (two_party, [("Y", error "Room not found")]).
Proof.
  apply (X4_join_missing_session two_party "Y"
           (Socket (Some "abc123xy") (Some "Bob") ["abc123xy"])).
  - vm_compute; reflexivity.
  - vm_compute; reflexivity.
Defined.

(** X5. A join request from a socket that is no member, on a session with
    fewer than two members, appends the socket to the members and leaves
    every other session as it was; the socket gets the session as its
    current one, its name, and the Socket.IO room of the session, and no
    other socket changes. The deliveries are [user-joined] with the new
    member count, once each to exactly the other connected sockets in the
    Socket.IO room of the session, followed by one [room-joined] to the
    requester with the new membership list, whose initiator flag is set
    exactly when the session had no member before. The name recorded is the
    requested one when it is not empty, and "User N" with N the new member
    count otherwise. *)
Theorem X5_join_appends_member st sid sk rid uname now r :
  sockets st !! sid = Some sk →
  rooms st !! rid = Some r →
  sid ∉ user_id <$> room_users r →
  length (room_users r) < 2 →
  let u := User sid (display_name uname (length (room_users r))) now in
  let st' := (step st (on sid (join_room rid uname now))).1 in
  let out := (step st (on sid (join_room rid uname now))).2 in
  rooms st' !! rid = Some (with_member u r)
  ∧ (∀ rid', rid' ≠ rid → rooms st' !! rid' = rooms st !! rid')
  ∧ sockets st'
    = <[sid := Socket (Some rid) (Some (user_name u)) (joined sk ++ [rid])]>
        (sockets st)
  ∧ (∃ others flag,
       out = others ++ [(sid, room_joined rid (room_users r ++ [u]) flag)]
       ∧ (flag = true ↔ room_users r = [])
       ∧ NoDup others
       ∧ ∀ d, d ∈ others ↔
              d.2 = user_joined sid (user_name u) (S (length (room_users r)))
              ∧ d.1 ≠ sid
              ∧ ∃ rk, sockets st !! d.1 = Some rk
                      ∧ (d.1 = rid ∨ rid ∈ joined rk))
  ∧ (∀ n, uname = Some n → n ≠ "" → user_name u = n)
  ∧ (uname = None ∨ uname = Some "" →
     user_name u = "User " +:+ pretty (length (room_users r) + 1)).
Proof.
  intros Hsk Hr Hnot Hlen u st' out. subst st' out.
  cbn [step handle]. rewrite Hsk. unfold on_join_room. rewrite Hr.
  apply find_not_member in Hnot. rewrite Hnot.
  rewrite decide_False by lia. cbn [fst snd rooms sockets].
  split; [by rewrite lookup_insert_eq|].
  split; [by intros rid' ?; rewrite lookup_insert_ne|].
  split; [done|]. split; [|split].
  - eexists _, _. split; [done|]. split; [|split].
    + rewrite bool_decide_eq_true, length_app. cbn.
      destruct (room_users r); cbn; split; intros; (done || lia).
    + unfold broadcast. apply NoDup_fmap_2; [|apply NoDup_to].
      by intros x y [= ->].
    + intros d. rewrite elem_of_broadcast, elem_of_to. cbn [sockets].
      setoid_rewrite in_room_spec. rewrite length_app, Nat.add_1_r.
      cbn [user_name length]. split.
      * intros (? & Hne & rk & Hrk & Hroom). rewrite lookup_insert_ne in Hrk
          by done. eauto 10.
      * intros (? & Hne & rk & Hrk & Hroom). split; [done|]. split; [done|].
        exists rk. by rewrite lookup_insert_ne.
  - intros n -> Hn. cbn. unfold display_name, truthy.
    by rewrite decide_False.
  - intros [->| ->]; cbn; unfold display_name, truthy; [done|].
    by rewrite decide_True.
Qed.

Lemma X5_join_appends_member_witness :
  let alone := (step three_connected (on "Y" disconnect)).1 in
  let r := Room "abc123xy" [User "X" "Alice" 1] 0 in
  let u := User "Z" (display_name (Some "Carol") 1) 3 in
  rooms (step alone (on "Z" (join_room "abc123xy" (Some "Carol") 3))).1
    !! "abc123xy" = Some (with_member u r).
Proof.
  intros alone r.
  apply (X5_join_appends_member alone "Z" (Socket None None [])
           "abc123xy" (Some "Carol") 3 r).
  - vm_compute; reflexivity.
  - vm_compute; reflexivity.
  - apply (bool_decide_unpack _). vm_compute; reflexivity.
  - vm_compute; lia.
Defined.

(** ** Deliveries *)

Lemma broadcast_recipient st sender r e d :
  d ∈ broadcast st sender r e →
  d.1 ≠ sender ∧ is_Some (sockets st !! d.1) ∧ d.2 = e.
Proof.
  intros [-> (Hne & sk & Hsk & _)%elem_of_to]%elem_of_broadcast. eauto.
Qed.

(** X6. Whatever the event, the server delivers only to connected sockets;
    what it delivers to the socket it is handling is a direct reply (an
    error, [room-created] or [room-joined]), and what it delivers to any
    other socket is never one. *)
Theorem X6_deliveries_discipline st sid e d :
  d ∈ (step st (on sid e)).2 →
  is_Some (sockets st !! d.1)
  ∧ is_reply d.2 = bool_decide (d.1 = sid).
Proof.
  cbn [step]. destruct (sockets st !! sid) as [sk|] eqn:Hsk;
    [|by intros ?%elem_of_nil].
  assert (∀ d r e, is_reply e = false → d ∈ broadcast st sid r e →
                   is_Some (sockets st !! d.1)
                   ∧ is_reply d.2 = bool_decide (d.1 = sid)) as Hb.
  { intros d' r e' He (Hne & Hc & ->)%broadcast_recipient.
    by rewrite bool_decide_eq_false_2. }
  assert (∀ e, is_reply e = true →
               is_Some (sockets st !! (sid, e).1)
               ∧ is_reply (sid, e).2 = bool_decide ((sid, e).1 = sid)) as Hr.
  { intros e' He. cbn. by rewrite bool_decide_eq_true_2. }
  destruct e; cbn [handle relay snd]; try (by apply Hb).
  - intros ->%list_elem_of_singleton. by apply Hr.
  - unfold on_join_room. destruct (rooms st !! rid) as [r|].
    + destruct (find _ (room_users r)).
      * intros ->%list_elem_of_singleton. by apply Hr.
      * case_decide; [intros ->%list_elem_of_singleton; by apply Hr|].
        cbn [snd].
        intros [Hd| ->%list_elem_of_singleton]%elem_of_app; [|by apply Hr].
        apply broadcast_recipient in Hd as (Hne & Hc & ->). cbn in Hc.
        rewrite lookup_insert_ne in Hc by done.
        by rewrite bool_decide_eq_false_2.
    + intros ->%list_elem_of_singleton. by apply Hr.
  - unfold on_user_status. destruct (truthy (roomId sk));
      [by apply Hb | by intros ?%elem_of_nil].
  - unfold on_disconnect. destruct (truthy (roomId sk));
      [destruct (rooms st !! _); [case_decide|]|]; cbn [snd];
      (by apply Hb) || by intros ?%elem_of_nil.
Qed.

Lemma X6_deliveries_discipline_witness :
  is_Some (sockets two_party !! "Y")
  ∧ is_reply (offer_from "sdp" "X") = bool_decide ("Y" = "X").
Proof.
  apply (X6_deliveries_discipline two_party "X" (offer "sdp" "Y")
           ("Y", offer_from "sdp" "X")).
  vm_compute. constructor.
Defined.

(** ** Status updates *)

(** X7. A status update changes nothing on the server. It is delivered, once
    each, to exactly the other connected sockets in the Socket.IO room of
    the sender's current session, and to nobody when the sender has no
    current session. *)
Theorem X7_user_status_relay st sid sk status :
  sockets st !! sid = Some sk →
  (step st (on sid (user_status status))).1 = st
  ∧ NoDup (step st (on sid (user_status status))).2
  ∧ ∀ d, d ∈ (step st (on sid (user_status status))).2 ↔
         ∃ rid rk, truthy (roomId sk) = Some rid
                   ∧ d.2 = user_status_update sid status
                   ∧ d.1 ≠ sid ∧ sockets st !! d.1 = Some rk
                   ∧ (d.1 = rid ∨ rid ∈ joined rk).
Proof.
  intros Hsk. cbn [step handle]. rewrite Hsk. unfold on_user_status.
  destruct (truthy (roomId sk)) as [rid|]; cbn [fst snd].
  - split; [done|]. split.
    + unfold broadcast. apply NoDup_fmap_2; [|apply NoDup_to].
      by intros x y [= ->].
    + intros d. rewrite elem_of_broadcast, elem_of_to.
      setoid_rewrite in_room_spec. split.
      * intros (? & ? & rk & ? & ?). by exists rid, rk.
      * intros (rid' & rk & [= <-] & ? & ? & ? & ?). eauto.
  - split; [done|]. split; [constructor|].
    intros d. split; [by intros ?%elem_of_nil|].
    by intros (? & ? & ? & _).
Qed.

Lemma X7_user_status_relay_witness :
  (step two_party (on "X" (user_status "muted"))).1 = two_party
  ∧ NoDup (step two_party (on "X" (user_status "muted"))).2
  ∧ ∀ d, d ∈ (step two_party (on "X" (user_status "muted"))).2 ↔
         ∃ rid rk, truthy (Some "abc123xy") = Some rid
                   ∧ d.2 = user_status_update "X" "muted"
                   ∧ d.1 ≠ "X" ∧ sockets two_party !! d.1 = Some rk
                   ∧ (d.1 = rid ∨ rid ∈ joined rk).
Proof.
  apply (X7_user_status_relay two_party "X"
           (Socket (Some "abc123xy") (Some "Alice") ["abc123xy"]) "muted").
  vm_compute; reflexivity.
Defined.

(** ** Leaving *)

(** X8. When a socket disconnects it is gone from the connected sockets;
    only its current session can change; if that session is still in the
    registry afterwards it has members and the socket is none of them; and
    everything delivered is [user-left] naming the socket. *)
Theorem X8_disconnect_effect st sid sk :
  sockets st !! sid = Some sk →
  let st' := (step st (on sid disconnect)).1 in
  sockets st' = delete sid (sockets st)
  ∧ (∀ rid, truthy (roomId sk) ≠ Some rid →
            rooms st' !! rid = rooms st !! rid)
  ∧ (∀ rid r', truthy (roomId sk) = Some rid → rooms st' !! rid = Some r' →
               room_users r' ≠ [] ∧ (sid ∉ user_id <$> room_users r')
               ∧ ∃ r, rooms st !! rid = Some r ∧ r' = without sid r)
  ∧ (∀ d, d ∈ (step st (on sid disconnect)).2 →
          ∃ n, d.2 = user_left sid (userName sk) n).
Proof.
  intros Hsk st'. subst st'. cbn [step handle]. rewrite Hsk.
  unfold on_disconnect.
  destruct (truthy (roomId sk)) as [rid|]; cbn [fst snd];
    [|by repeat split; try done; intros d ?%elem_of_nil].
  destruct (rooms st !! rid) as [r|] eqn:Hr; cbn [fst snd rooms sockets].
  - assert (sid ∉ user_id <$> filter (λ u, user_id u ≠ sid) (room_users r))
      as Hout.
    { intros (u & Hu & [Hne _]%list_elem_of_filter)%list_elem_of_fmap.
      by apply Hne. }
    case_decide as Hlen; cbn [fst snd rooms sockets].
    + split; [done|]. split.
      { intros rid' Hne. rewrite lookup_delete_ne; [done|congruence]. }
      split.
      { intros rid' r' [= <-]. by rewrite lookup_delete_eq. }
      intros d (_ & _ & ->)%broadcast_recipient. eauto.
    + split; [done|]. split.
      { intros rid' Hne. rewrite lookup_insert_ne; [done|congruence]. }
      split.
      { intros rid' r' [= <-]. rewrite lookup_insert_eq. intros [= <-]. cbn.
        split; [by intros Hnil; rewrite Hnil in Hlen|]. split; [done|].
        by exists r. }
      intros d (_ & _ & ->)%broadcast_recipient. eauto.
  - split; [done|]. split; [done|]. split.
    + intros rid' r' [= <-]. by rewrite Hr.
    + by intros d ?%elem_of_nil.
Qed.

Lemma X8_disconnect_effect_witness :
  let st' := (step two_party (on "Y" disconnect)).1 in
  sockets st' = delete "Y" (sockets two_party)
  ∧ (∀ rid, truthy (Some "abc123xy") ≠ Some rid →
            rooms st' !! rid = rooms two_party !! rid)
  ∧ (∀ rid r', truthy (Some "abc123xy") = Some rid →
               rooms st' !! rid = Some r' →
               room_users r' ≠ [] ∧ ("Y" ∉ user_id <$> room_users r')
               ∧ ∃ r, rooms two_party !! rid = Some r ∧ r' = without "Y" r)
  ∧ (∀ d, d ∈ (step two_party (on "Y" disconnect)).2 →
          ∃ n, d.2 = user_left "Y" (Some "Bob") n).
Proof.
  apply (X8_disconnect_effect two_party "Y"
           (Socket (Some "abc123xy") (Some "Bob") ["abc123xy"])).
  vm_compute; reflexivity.
Defined.

(** ** Identifiers *)

Lemma string_length_append (s1 s2 : string) :
  String.length (s1 +:+ s2) = String.length s1 + String.length s2.
Proof.
  induction s1 as [|c s1 IH]; [done|].
  change (S (String.length (s1 +:+ s2))
          = S (String.length s1 + String.length s2)).
  by rewrite IH.
Qed.

Lemma string_append_nil_r (s : string) : s +:+ "" = s.
Proof.
  induction s as [|c s IH]; [done|].
  change (String c (s +:+ "") = String c s). by rewrite IH.
Qed.

Lemma substring_prefix n (s : string) :
  String.length (String.substring 0 n s) = n `min` String.length s
  ∧ ∃ rest, s = String.substring 0 n s +:+ rest.
Proof.
  revert s. induction n as [|n IH]; intros s.
  - split; [by destruct s|]. exists s. by destruct s.
  - destruct s as [|c s]; [split; [done|by exists ""]|].
    destruct (IH s) as [Hlen [rest Hrest]]. cbn. split; [by rewrite Hlen|].
    exists rest. change (String c s = String c (String.substring 0 n s +:+ rest)).
    by f_equal.
Qed.

(** X9. A session identifier has at most nine characters and is the
    beginning of the random digits; digits of at most nine characters are
    the identifier as they are. *)
Theorem X9_generateRoomId_prefix digits :
  String.length (generateRoomId digits) ≤ 9
  ∧ (∃ rest, digits = generateRoomId digits +:+ rest)
  ∧ (String.length digits ≤ 9 → generateRoomId digits = digits).
Proof.
  unfold generateRoomId.
  destruct (substring_prefix 9 digits) as [Hlen [rest Hrest]].
  split; [lia|]. split; [by exists rest|]. intros Hshort.
  assert (String.length rest = 0) as Hnil.
  { apply (f_equal String.length) in Hrest.
    rewrite string_length_append in Hrest. lia. }
  destruct rest; [|done]. rewrite Hrest at 2.
  by rewrite string_append_nil_r.
Qed.

Lemma X9_generateRoomId_prefix_witness :
  generateRoomId "abc123xy" = "abc123xy".
Proof. apply (X9_generateRoomId_prefix "abc123xy"). vm_compute; lia. Defined.

(** ** Creating, joining and leaving together *)

(** X10. After [create-room], a join request from the creator for the
    identifier it was given makes the creator the only member and the
    initiator, whatever the registry held before. *)
Theorem X10_create_then_join st sid sk digits now uname now' :
  sockets st !! sid = Some sk →
  let rid := generateRoomId digits in
  let created := (step st (on sid (create_room digits now))).1 in
  let u := User sid (display_name uname 0) now' in
  (step st (on sid (create_room digits now))).2 = [(sid, room_created rid)]
  ∧ rooms (step created (on sid (join_room rid uname now'))).1 !! rid
    = Some (Room rid [u] now)
  ∧ last (step created (on sid (join_room rid uname now'))).2
    = Some (sid, room_joined rid [u] true).
Proof.
  intros Hsk rid created u. subst created u rid.
  rewrite (create_room_ignores_registry st sid sk digits now Hsk).
  cbn [fst snd]. split; [done|].
  cbn [step handle sockets]. rewrite Hsk. unfold on_join_room.
  cbn [rooms]. rewrite lookup_insert_eq.
  cbn [room_users room_id room_createdAt find length].
  rewrite decide_False by lia. cbn [fst snd rooms app].
  rewrite insert_insert_eq, lookup_insert_eq.
  split; [done|]. by rewrite last_snoc.
Qed.

Lemma X10_create_then_join_witness :
  let created := (step two_party (on "Y" (create_room "abc123xy" 5))).1 in
  let u := User "Y" (display_name None 0) 6 in
  (step two_party (on "Y" (create_room "abc123xy" 5))).2
  = [("Y", room_created "abc123xy")]
  ∧ rooms (step created (on "Y" (join_room "abc123xy" None 6))).1
      !! "abc123xy" = Some (Room "abc123xy" [u] 5)
  ∧ last (step created (on "Y" (join_room "abc123xy" None 6))).2
    = Some ("Y", room_joined "abc123xy" [u] true).
Proof.
  apply (X10_create_then_join two_party "Y"
           (Socket (Some "abc123xy") (Some "Bob") ["abc123xy"])
           "abc123xy" 5 None 6).
  vm_compute; reflexivity.
Defined.

Lemma filter_out_appended sid (us : list user) u :
  sid ∉ user_id <$> us → user_id u = sid →
  filter (λ v, user_id v ≠ sid) (us ++ [u]) = us.
Proof.
  intros Hnot Hu. rewrite filter_app, filter_cons, decide_False by auto.
  rewrite filter_nil, app_nil_r.
  induction us as [|v us IH]; [done|].
  rewrite fmap_cons, not_elem_of_cons in Hnot. destruct Hnot as [Hv Hus].
  rewrite filter_cons, decide_True by auto. f_equal. by apply IH.
Qed.

Lemma join_success_state st sid sk rid uname now r :
  sockets st !! sid = Some sk →
  rooms st !! rid = Some r →
  sid ∉ user_id <$> room_users r →
  length (room_users r) < 2 →
  (step st (on sid (join_room rid uname now))).1
  = State (<[rid := with_member
                      (User sid (display_name uname (length (room_users r)))
                            now) r]> (rooms st))
          (<[sid := Socket (Some rid)
                           (Some (display_name uname (length (room_users r))))
                           (joined sk ++ [rid])]> (sockets st)).
Proof.
  intros Hsk Hr Hnot Hlen. cbn [step handle]. rewrite Hsk.
  unfold on_join_room. rewrite Hr.
  apply find_not_member in Hnot. rewrite Hnot.
  by rewrite decide_False by lia.
Qed.

(** X11. A socket that joins a session it was no member of, and then
    disconnects, leaves the registry as it was before the join, except that
    a session it found empty is deleted. *)
Theorem X11_join_then_disconnect st sid sk rid uname now r :
  sockets st !! sid = Some sk →
  rooms st !! rid = Some r →
  sid ∉ user_id <$> room_users r →
  length (room_users r) < 2 →
  rid ≠ "" →
  let joined := (step st (on sid (join_room rid uname now))).1 in
  let left := (step joined (on sid disconnect)).1 in
  rooms left = (if decide (room_users r = []) then delete rid (rooms st)
                else rooms st)
  ∧ sockets left = delete sid (sockets st).
Proof.
  intros Hsk Hr Hnot Hlen Hrid joined left. subst left joined.
  rewrite (join_success_state st sid sk rid uname now r) by done.
  cbn [step sockets]. rewrite lookup_insert_eq.
  cbn [handle]. unfold on_disconnect.
  cbn [roomId truthy]. rewrite decide_False by done. cbn [rooms].
  rewrite lookup_insert_eq. unfold with_member.
  cbn [room_users room_id room_createdAt sockets].
  rewrite filter_out_appended by done.
  destruct (room_users r) as [|v us] eqn:Hus.
  - rewrite !decide_True by done. cbn. split.
    + by rewrite delete_insert_eq.
    + by rewrite delete_insert_eq.
  - rewrite !decide_False by done. cbn. split.
    + rewrite insert_insert_eq. apply insert_id. rewrite <- Hus.
      by destruct r.
    + by rewrite delete_insert_eq.
Qed.

Lemma X11_join_then_disconnect_witness :
  let alone := (step three_connected (on "Y" disconnect)).1 in
  let r := Room "abc123xy" [User "X" "Alice" 1] 0 in
  let joined := (step alone (on "Z" (join_room "abc123xy" None 3))).1 in
  let left := (step joined (on "Z" disconnect)).1 in
  rooms left = (if decide (room_users r = [])
                then delete "abc123xy" (rooms alone) else rooms alone)
  ∧ sockets left = delete "Z" (sockets alone).
Proof.
  intros alone r.
  apply (X11_join_then_disconnect alone "Z" (Socket None None [])
           "abc123xy" None 3 r).
  - vm_compute; reflexivity.
  - vm_compute; reflexivity.
  - apply (bool_decide_unpack _). vm_compute; reflexivity.
  - vm_compute; lia.
  - discriminate.
Defined.

End ServerExtras.

(* ===================================================================== *)
(** * Further properties of the client *)
(* ===================================================================== *)

Module ClientExtras.
Import Client ClientTerms ClientFacts.

(** ** Messages emitted *)

Lemma emitted_sent st : emitted st = sent (trace st).
Proof. reflexivity. Qed.

Lemma sent_app l1 l2 : sent (l1 ++ l2) = sent l1 ++ sent l2.
Proof. apply omap_app. Qed.

Lemma sent_setup pre : Forall (λ a, is_setup a = true) pre → sent pre = [].
Proof.
  induction 1 as [|a pre Ha _ IH]; [done|].
  destruct a; try discriminate Ha; exact IH.
Qed.

Lemma createOffer_trace B st u :
  ∃ pre,
    trace (createOffer B st u) = trace st ++ pre ++ offering B st u
    ∧ Forall (λ a, is_setup a = true) pre.
Proof.
  unfold createOffer, offering.
  destruct (ensurePeerConnection_extend
              (tell (console ("Creating offer for user: " +:+ u)) st))
    as (pre & -> & Hpre).
  change (connection_for (tell _ st)) with (connection_for st).
  exists ([console ("Creating offer for user: " +:+ u)] ++ pre).
  split; [|by repeat constructor].
  destruct (createOffer_result B (connection_for st)) as [o|].
  - destruct (setLocalDescription_ok B (connection_for st) o).
    + cbn [set_peerConnectionRef tell extend socketRef trace].
      destruct (socketRef st); cbn [tell trace]; by simplify_list_eq.
    + cbn. by simplify_list_eq.
  - cbn. by simplify_list_eq.
Qed.

Ltac emitted_of_setters :=
  unfold emitted;
  cbn [trace tell set_peerConnectionRef setLocalStream setRemoteStream
       setIsScreenSharing setConnectionStatus set_joined set_socketRef
       setIsConnected set_currentRoomIdRef];
  rewrite ?omap_app; cbn; rewrite ?app_nil_r; try done.

Lemma step_emitted B st i :
  emitted (step B st i) = emitted st ++ emission B st i.
Proof.
  destruct i; cbn [step emission]; rewrite ?app_nil_r.
  - apply initializeMedia_emitted.
  - unfold initializeSocket. destruct (socketRef st) as [[]|];
      emitted_of_setters.
  - unfold on_connect. emitted_of_setters.
  - unfold on_disconnect. emitted_of_setters.
  - unfold on_connect_error. emitted_of_setters.
  - unfold on_error. emitted_of_setters.
  - unfold createRoom. destruct (socketRef st); emitted_of_setters.
  - unfold on_room_created. emitted_of_setters.
  - unfold joinRoom. destruct (socketRef st); emitted_of_setters.
  - unfold on_room_joined. emitted_of_setters.
  - unfold on_user_joined. emitted_of_setters.
  - unfold on_offer_timer.
    destruct (peerConnectionRef st), (localStreamRef st);
      rewrite ?app_nil_r; try done.
    destruct (createOffer_trace B st userId) as (pre & Htr & Hpre).
    rewrite !emitted_sent, Htr, !sent_app. by rewrite (sent_setup pre Hpre).
  - unfold on_user_left.
    cbn [tell setConnectionStatus setRemoteStream peerConnectionRef].
    destruct (peerConnectionRef st); emitted_of_setters.
  - destruct (on_offer_trace B st o senderId) as (pre & Htr & Hpre).
    rewrite !emitted_sent, Htr, !sent_app. by rewrite (sent_setup pre Hpre).
  - unfold on_answer, handleAnswer. cbn [tell peerConnectionRef].
    destruct (peerConnectionRef st) as [p|];
      [destruct (setRemoteDescription_ok B p a)|]; emitted_of_setters.
  - unfold on_ice_candidate, handleIceCandidate. cbn [tell peerConnectionRef].
    destruct (peerConnectionRef st) as [p|];
      [destruct (addIceCandidate_ok B p c)|]; emitted_of_setters.
  - unfold onicecandidate. destruct c as [c|]; [|by rewrite app_nil_r].
    destruct (socketRef st); emitted_of_setters.
  - unfold ontrack. emitted_of_setters.
  - apply toggleScreenShare_emitted.
  - unfold on_screen_share_ended. rewrite initializeMedia_emitted.
    emitted_of_setters.
Qed.

Ltac at_most_one_prompted :=
  cbn; repeat split; try done; try lia;
  intros m Hm;
  first [ by apply elem_of_nil in Hm
        | apply list_elem_of_singleton in Hm as ->; by cbn ].

Lemma emission_spec B st i :
  length (emission B st i) ≤ 1
  ∧ (socketRef st = None → emission B st i = [])
  ∧ ∀ m, m ∈ emission B st i → prompted_by i m.
Proof.
  destruct i; cbn [emission]; try by at_most_one_prompted.
  - destruct (socketRef st); at_most_one_prompted.
  - destruct (socketRef st); at_most_one_prompted.
  - destruct (peerConnectionRef st), (localStreamRef st);
      try by at_most_one_prompted.
    unfold offering.
    destruct (createOffer_result B _) as [o|];
      [destruct (setLocalDescription_ok B _ o)|];
      destruct (socketRef st); at_most_one_prompted.
  - unfold negotiation.
    destruct (setRemoteDescription_ok B _ o);
      [destruct (createAnswer_result B _) as [a|];
       [destruct (setLocalDescription_ok B _ a)|]|];
      destruct (socketRef st); at_most_one_prompted.
  - destruct c as [c|]; [|by at_most_one_prompted].
    destruct (socketRef st); at_most_one_prompted.
Qed.

(** X12. Handling one event makes the hook emit at most one message, none
    when it has no socket, and only: [create-room] and [join-room] when asked
    to, an offer targeted at the user of the join timer, an answer targeted
    at the sender of a received offer, and a gathered candidate targeted at
    "broadcast". *)
Theorem X12_one_message_per_event B st i :
  ∃ new,
    emitted (step B st i) = emitted st ++ new
    ∧ length new ≤ 1
    ∧ (socketRef st = None → new = [])
    ∧ ∀ m, m ∈ new → prompted_by i m.
Proof.
  exists (emission B st i). split; [apply step_emitted|apply emission_spec].
Qed.

Lemma X12_one_message_per_event_witness :
  ∃ new,
    emitted (step permissive initial (join_room_called "abc123xy" "Bob"))
    = emitted initial ++ new
    ∧ length new ≤ 1
    ∧ (socketRef initial = None → new = [])
    ∧ ∀ m, m ∈ new → prompted_by (join_room_called "abc123xy" "Bob") m.
Proof.
  apply (X12_one_message_per_event permissive initial
           (join_room_called "abc123xy" "Bob")).
Defined.

(** ** Who starts the negotiation *)

Lemma toggleScreenShare_without_connection B st d g :
  peerConnectionRef st = None →
  peerConnectionRef (toggleScreenShare B st d g) = None.
Proof.
  intros Hp. destruct (isScreenSharing st) eqn:Hs.
  - by rewrite toggleScreenShare_stop.
  - rewrite toggleScreenShare_no_sender; [done..|]. by rewrite Hp.
Qed.

Lemma step_without_connection B st i :
  peerConnectionRef st = None → is_offer_from i = false →
  peerConnectionRef (step B st i) = None
  ∧ ∀ m, m ∈ emission B st i → is_description m = false.
Proof.
  intros Hp Hi. split.
  - destruct i; cbn [step]; try done.
    + by rewrite initializeMedia_peerConnectionRef.
    + unfold initializeSocket. by destruct (socketRef st) as [[]|].
    + unfold createRoom. by destruct (socketRef st).
    + unfold joinRoom. by destruct (socketRef st).
    + unfold on_offer_timer. by rewrite Hp.
    + unfold on_user_left.
      cbn [tell setConnectionStatus setRemoteStream peerConnectionRef].
      by rewrite Hp.
    + unfold on_answer, handleAnswer. cbn [tell peerConnectionRef].
      by rewrite Hp.
    + unfold on_ice_candidate, handleIceCandidate.
      cbn [tell peerConnectionRef]. by rewrite Hp.
    + unfold onicecandidate. destruct c; [|done]. by destruct (socketRef st).
    + by apply toggleScreenShare_without_connection.
    + unfold on_screen_share_ended.
      by rewrite initializeMedia_peerConnectionRef.
  - intros m Hm. destruct (emission_spec B st i) as (_ & _ & Hprompt).
    pose proof (Hprompt m Hm) as Hpm.
    destruct m; try done; destruct i; cbn in Hpm, Hi; try done;
      try (by repeat case_match).
    cbn [emission] in Hm. rewrite Hp in Hm. by apply elem_of_nil in Hm.
Qed.

(** X13. The hook never starts a negotiation by itself: from a state
    without peer connection, whatever events it handles, as long as no offer
    is received it has no peer connection afterwards and emits neither an
    offer nor an answer. In particular the timer set when another user joins
    makes no offer. *)
Theorem X13_never_initiates B st ins :
  peerConnectionRef st = None →
  Forall (λ i, is_offer_from i = false) ins →
  peerConnectionRef (run B st ins) = None
  ∧ ∃ new, emitted (run B st ins) = emitted st ++ new
           ∧ Forall (λ m, is_description m = false) new.
Proof.
  intros Hp Hins. revert st Hp.
  induction Hins as [|i ins Hi _ IH]; intros st Hp.
  - split; [done|]. exists []. by rewrite app_nil_r.
  - destruct (step_without_connection B st i Hp Hi) as [Hp' Hm].
    destruct (IH (step B st i) Hp') as [Hrun (new & Hnew & Hdesc)].
    split; [done|]. exists (emission B st i ++ new).
    split.
    + unfold run in *; cbn [foldl]. by rewrite Hnew, step_emitted, app_assoc.
    + apply Forall_app. split; [|done]. by apply Forall_forall.
Qed.

Lemma X13_never_initiates_witness :
  let ins := [media (inl camera); socket_initialized; socket_connect;
              create_room_called; room_created "abc123xy";
              join_room_called "abc123xy" "Alice";
              room_joined "abc123xy" [Server.User "X" "Alice" 1] true;
              user_joined "Y" "Bob" 2; offer_timer "Y"] in
  peerConnectionRef (run permissive initial ins) = None
  ∧ ∃ new, emitted (run permissive initial ins) = emitted initial ++ new
           ∧ Forall (λ m, is_description m = false) new.
Proof.
  intros ins. apply (X13_never_initiates permissive initial ins).
  - reflexivity.
  - repeat constructor.
Defined.

(** ** Making an offer *)

(** X14. When [createOffer] emits a message it is its last effect, and the
    message is the offer, targeted at the user given, created earlier and
    applied as local description in between. When the browser fails to
    create the offer, or rejects it as local description, nothing is emitted
    and the descriptions of the connection stay as they were. When both calls
    resolve and there is a socket, the offer is the local description
    afterwards and has been emitted. *)
Theorem X14_offer_after_local_description B st u :
  ∃ new,
    trace (createOffer B st u) = trace st ++ new ∧
    (∀ t1 m t2, new = t1 ++ emit m :: t2 →
       t2 = [] ∧
       ∃ o u1 u2, m = offer o u
                  ∧ t1 = u1 ++ createOffer_call (Some o) :: u2
                  ∧ setLocalDescription o true ∈ u2) ∧
    (createOffer_result B (connection_for st) = None
     ∨ (∃ o, createOffer_result B (connection_for st) = Some o
             ∧ setLocalDescription_ok B (connection_for st) o = false) →
     peerConnectionRef (createOffer B st u) = Some (connection_for st)
     ∧ sent new = []) ∧
    (∀ o, is_Some (socketRef st) →
          createOffer_result B (connection_for st) = Some o →
          setLocalDescription_ok B (connection_for st) o = true →
          peerConnectionRef (createOffer B st u)
          = Some (with_local o (connection_for st))
          ∧ sent new = [offer o u]).
Proof.
  destruct (createOffer_trace B st u) as (pre & Htrace & Hpre).
  exists (pre ++ offering B st u). split; [done|].
  assert (∀ x, is_setup x = false → x ∉ pre) as Hnot.
  { intros x Hx Hin. rewrite Forall_forall in Hpre.
    apply Hpre in Hin. congruence. }
  assert (peerConnectionRef (createOffer B st u)
          = Some match createOffer_result B (connection_for st) with
                 | Some o =>
                   if setLocalDescription_ok B (connection_for st) o
                   then with_local o (connection_for st)
                   else connection_for st
                 | None => connection_for st
                 end) as Hpc.
  { unfold createOffer.
    destruct (ensurePeerConnection_extend
                (tell (console ("Creating offer for user: " +:+ u)) st))
      as (pre' & -> & _).
    change (connection_for (tell _ st)) with (connection_for st).
    destruct (createOffer_result B (connection_for st)) as [o|]; [|done].
    destruct (setLocalDescription_ok B (connection_for st) o); [|done].
    cbn [set_peerConnectionRef tell extend socketRef].
    by destruct (socketRef st). }
  split; [|split].
  - intros t1 m t2 Heq.
    apply split_after_prefix in Heq as (k & Hk & -> & ->); [|by apply Hnot].
    revert Hk. unfold offering.
    repeat case_match; destruct k as [|[|[|k]]]; cbn; intros [=]; subst.
    split; [done|]. eexists _, pre, _.
    split; [done|]. split; [done|]. by left.
  - intros Hfail. rewrite Hpc, sent_app, (sent_setup pre Hpre).
    unfold offering. destruct Hfail as [->|(o & -> & ->)]; by cbn.
  - intros o [c Hsock] Ho Hl.
    rewrite Hpc, sent_app, (sent_setup pre Hpre).
    unfold offering. by rewrite Ho, Hl, Hsock.
Qed.

Lemma X14_offer_after_local_description_witness :
  let in_call := step permissive ready (offer_from "o" "X") in
  ∃ new,
    trace (createOffer permissive in_call "X") = trace in_call ++ new ∧
    peerConnectionRef (createOffer permissive in_call "X")
    = Some (with_local "offer-sdp" (connection_for in_call))
    ∧ sent new = [offer "offer-sdp" "X"].
Proof.
  intros in_call.
  destruct (X14_offer_after_local_description permissive in_call "X")
    as (new & Htrace & _ & _ & Hlive).
  exists new. split; [exact Htrace|].
  apply Hlive; [by exists true | reflexivity..].
Defined.

(** ** Acquiring the camera *)

Lemma append_cons c (s t : string) : String c s +:+ t = String c (s +:+ t).
Proof. reflexivity. Qed.

Lemma prefix_spec (a b : string) :
  String.prefix a b = true ↔ ∃ post, b = a +:+ post.
Proof.
  revert b. induction a as [|c a IH]; intros b.
  - split; [by exists b | by destruct b].
  - destruct b as [|c' b]; cbn [String.prefix].
    + split; [done | by intros [post ?]].
    + destruct (Ascii.ascii_dec c c') as [<-|Hne].
      * rewrite IH. split; intros [post Hpost]; exists post.
        -- by rewrite append_cons, Hpost.
        -- rewrite append_cons in Hpost. by injection Hpost.
      * split; [done|]. intros [post Hpost].
        rewrite append_cons in Hpost. by injection Hpost.
Qed.

Lemma includes_spec (needle hay : string) :
  includes needle hay = true ↔ contains needle hay.
Proof.
  unfold contains. induction hay as [|c hay IH].
  - cbn [includes]. rewrite orb_false_r, prefix_spec. split.
    + intros [post ->]. by exists "", post.
    + intros ([|? pre] & post & Heq); [by exists post|done].
  - cbn [includes]. rewrite orb_true_iff, prefix_spec, IH. split.
    + intros [[post ->]|(pre & post & ->)].
      * by exists "", post.
      * by exists (String c pre), post.
    + intros ([|c' pre] & post & Heq).
      * left. by exists post.
      * right. rewrite append_cons in Heq. injection Heq as -> ->.
        by exists pre, post.
Qed.

(** X15. When [getUserMedia] rejects, [initializeMedia] throws, keeps the
    local stream and the peer connection as they were, emits nothing and
    calls [onLeaveRoomWithError] once, as its last effect. The reason is
    the camera-denied text when the error message contains "Permission
    denied" or "NotAllowedError"; failing that, the no-camera text when it
    contains "NotFoundError"; and otherwise "Media access failed: " followed
    by the message. *)
Theorem X15_media_failure st msg :
  let st' := (initializeMedia st (inr msg)).1 in
  (initializeMedia st (inr msg)).2 = false
  ∧ forget st' = forget (setConnectionStatus "Getting camera access..." st)
  ∧ emitted st' = emitted st
  ∧ ∃ reason new,
      trace st' = trace st ++ new ++ [onLeaveRoomWithError reason]
      ∧ Forall (λ a, is_console a = true) new
      ∧ (contains "Permission denied" msg
         ∨ contains "NotAllowedError" msg →
         reason = "Camera access denied. Please allow camera permissions and try again.")
      ∧ (¬ contains "Permission denied" msg →
         ¬ contains "NotAllowedError" msg →
         contains "NotFoundError" msg →
         reason = "No camera found. Please connect a camera and try again.")
      ∧ (¬ contains "Permission denied" msg →
         ¬ contains "NotAllowedError" msg →
         ¬ contains "NotFoundError" msg →
         reason = "Media access failed: " +:+ msg).
Proof.
  intros st'. subst st'. split; [done|]. split; [done|].
  split; [apply initializeMedia_emitted|].
  unfold initializeMedia. cbn [fst tell trace setConnectionStatus].
  eexists _, [_; _]. split; [by rewrite <- !app_assoc|].
  split; [by repeat constructor|].
  rewrite <- !includes_spec.
  destruct (includes "Permission denied" msg),
    (includes "NotAllowedError" msg), (includes "NotFoundError" msg);
    cbn [orb]; repeat split; try done; intros; by intuition.
Qed.

Lemma X15_media_failure_witness :
  ∃ reason new,
    trace (initializeMedia initial (inr "NotFoundError: no device")).1
    = trace initial ++ new ++ [onLeaveRoomWithError reason]
    ∧ reason = "No camera found. Please connect a camera and try again.".
Proof.
  destruct (X15_media_failure initial "NotFoundError: no device")
    as (_ & _ & _ & reason & new & Htrace & _ & _ & Hfound & _).
  exists reason, new. split; [exact Htrace|].
  apply Hfound.
  - rewrite <- includes_spec. by vm_compute.
  - rewrite <- includes_spec. by vm_compute.
  - by exists "", ": no device".
Defined.

(** ** Screen sharing *)

Lemma toggleScreenShare_connection B st d g :
  peerConnectionRef (toggleScreenShare B st d g) = peerConnectionRef st
  ∨ ∃ p i t,
      peerConnectionRef st = Some p
      ∧ find_index is_video_sender (senders p) = Some i
      ∧ peerConnectionRef (toggleScreenShare B st d g)
        = Some (Peer (localDescription p) (remoteDescription p)
                     (<[i := t]> (senders p)) (remoteCandidates p)).
Proof.
  destruct (isScreenSharing st) eqn:Hs.
  - left. by apply toggleScreenShare_stop.
  - unfold toggleScreenShare. rewrite Hs. cbn [negb].
    destruct d as [screenStream|]; [|by left].
    cbn [tell peerConnectionRef localStreamRef].
    destruct (peerConnectionRef st) as [p|] eqn:Hp;
      [destruct (localStreamRef st) as [ls|] eqn:Hl;
       [destruct (find_index is_video_sender (senders p)) as [i|] eqn:Hi;
        [destruct (replaceTrack_ok B p i _)|]|]|];
      destruct (head (getVideoTracks screenStream)); cbn;
      first [ left; by rewrite ?Hp
            | right; eexists _, _, _; split_and!;
              [reflexivity | eassumption | reflexivity] ].
Qed.

Lemma toggleScreenShare_start_local_stream B st d g :
  isScreenSharing st = false →
  localStream (toggleScreenShare B st d g) = localStream st
  ∧ localStreamRef (toggleScreenShare B st d g) = localStreamRef st.
Proof.
  intros Hs. unfold toggleScreenShare. rewrite Hs. cbn [negb].
  destruct d as [screenStream|]; [|done].
  cbn [tell peerConnectionRef localStreamRef].
  destruct (peerConnectionRef st) as [p|];
    [destruct (localStreamRef st) as [ls|] eqn:Hl;
     [destruct (find_index is_video_sender (senders p)) as [i|];
      [destruct (replaceTrack_ok B p i _)|]|]|];
    destruct (head (getVideoTracks screenStream)); cbn; by rewrite ?Hl.
Qed.

(** X16. Toggling the screen share, in either direction and whatever the
    browser answers, emits nothing and leaves the descriptions, the accepted
    candidates and the number of senders of the connection as they were; a
    sender other than the first video sender keeps its track; and starting a
    share leaves the local stream as it was. *)
Theorem X16_screen_share_is_local B st d g :
  let st' := toggleScreenShare B st d g in
  emitted st' = emitted st
  ∧ negotiated st' = negotiated st
  ∧ (∀ p p' j, peerConnectionRef st = Some p → peerConnectionRef st' = Some p' →
               find_index is_video_sender (senders p) ≠ Some j →
               senders p' !! j = senders p !! j)
  ∧ (isScreenSharing st = false →
     localStream st' = localStream st ∧ localStreamRef st' = localStreamRef st).
Proof.
  intros st'. subst st'. split; [apply toggleScreenShare_emitted|].
  split; [|split; [|apply toggleScreenShare_start_local_stream]].
  - unfold negotiated.
    destruct (toggleScreenShare_connection B st d g)
      as [->|(p & i & t & Hp & _ & ->)]; [done|].
    rewrite Hp. cbn. by rewrite length_insert.
  - intros p p' j Hp Hp' Hj.
    destruct (toggleScreenShare_connection B st d g)
      as [Heq|(q & i & t & Hq & Hi & Heq)]; rewrite Heq in Hp'.
    + congruence.
    + rewrite Hp in Hq. injection Hq as <-. injection Hp' as <-. cbn.
      apply list_lookup_insert_ne. congruence.
Qed.

Lemma X16_screen_share_is_local_witness :
  let in_call := step permissive ready (offer_from "o" "X") in
  let st' := toggleScreenShare permissive in_call (Some screen) (inl camera) in
  localStream st' = localStream in_call
  ∧ localStreamRef st' = localStreamRef in_call.
Proof.
  intros in_call.
  apply (X16_screen_share_is_local permissive in_call (Some screen)
           (inl camera)).
  reflexivity.
Defined.

(** X17. Stopping a share clears the sharing flag and acquires the camera
    again without touching the connection: when [getUserMedia] resolves its
    stream becomes the local stream, and when it rejects the local stream is
    kept and [onLeaveRoomWithError] is called. The handler of the end of
    the shared track does the same. *)
Theorem X17_stop_sharing B st d g :
  isScreenSharing st = true →
  ∀ st', st' = toggleScreenShare B st d g ∨ st' = on_screen_share_ended st g →
  isScreenSharing st' = false
  ∧ peerConnectionRef st' = peerConnectionRef st
  ∧ match g with
    | inl s => localStream st' = Some s ∧ localStreamRef st' = Some s
    | inr msg =>
      localStream st' = localStream st ∧ localStreamRef st' = localStreamRef st
      ∧ ∃ reason, onLeaveRoomWithError reason ∈ trace st'
    end.
Proof.
  intros Hs st' [->| ->].
  - unfold toggleScreenShare. rewrite Hs. cbn [negb].
    destruct g as [s|msg]; cbn.
    + done.
    + repeat split; try done. eexists. rewrite !elem_of_app.
      left; right. by left.
  - unfold on_screen_share_ended. destruct g as [s|msg]; cbn.
    + done.
    + repeat split; try done. eexists. rewrite !elem_of_app. right. by left.
Qed.

Lemma X17_stop_sharing_witness :
  let sharing :=
    run permissive ready
        [offer_from "o" "X"; screen_share_toggled (Some screen) (inl camera)] in
  let st' := toggleScreenShare permissive sharing None (inr "NotFoundError") in
  isScreenSharing st' = false
  ∧ peerConnectionRef st' = peerConnectionRef sharing
  ∧ localStream st' = localStream sharing
  ∧ localStreamRef st' = localStreamRef sharing
  ∧ ∃ reason, onLeaveRoomWithError reason ∈ trace st'.
Proof.
  intros sharing st'.
  apply (X17_stop_sharing permissive sharing None (inr "NotFoundError")).
  - reflexivity.
  - by left.
Defined.

(** ** The other participant leaving *)

(** X18. After [user-left] the hook has no peer connection and no remote
    stream, and has emitted nothing; the connection is closed exactly when
    there was one. An answer or a candidate received then changes nothing
    but the console: no state, no call on a connection, no message, no
    callback. *)
Theorem X18_user_left_tears_down B st u :
  let st' := on_user_left st u in
  peerConnectionRef st' = None
  ∧ remoteStream st' = None
  ∧ emitted st' = emitted st
  ∧ (close ∈ drop (length (trace st)) (trace st')
     ↔ is_Some (peerConnectionRef st))
  ∧ (∀ a s, silent (on_answer B st' a s) = silent st')
  ∧ (∀ c s, silent (on_ice_candidate B st' c s) = silent st').
Proof.
  intros st'.
  assert (peerConnectionRef st' = None) as Hnone.
  { subst st'. unfold on_user_left.
    cbn [tell setConnectionStatus setRemoteStream peerConnectionRef].
    destruct (peerConnectionRef st) eqn:Hp; cbn; by rewrite ?Hp. }
  split; [done|]. split.
  { subst st'. unfold on_user_left.
    cbn [tell setConnectionStatus setRemoteStream peerConnectionRef].
    by destruct (peerConnectionRef st) eqn:Hp; cbn. }
  split.
  { pose proof (step_emitted B st (user_left u)) as He.
    cbn [step emission] in He. by rewrite app_nil_r in He. }
  split.
  { subst st'. unfold on_user_left.
    cbn [tell setConnectionStatus setRemoteStream peerConnectionRef].
    destruct (peerConnectionRef st); cbn [trace tell set_peerConnectionRef
      setConnectionStatus setRemoteStream].
    - rewrite <- app_assoc, drop_app_length. split; [by eauto|].
      intros _. right. by left.
    - rewrite drop_app_length. split; [|by intros [? ?]].
      by intros ?%list_elem_of_singleton. }
  split.
  - intros a s. unfold on_answer, handleAnswer.
    cbn [tell peerConnectionRef]. rewrite Hnone.
    by rewrite !silent_tell_console.
  - intros c s. unfold on_ice_candidate, handleIceCandidate.
    cbn [tell peerConnectionRef]. rewrite Hnone.
    by rewrite silent_tell_console.
Qed.

(** ** The participant list *)

Lemma step_users B st i :
  is_room_joined i = false → users (step B st i) = users st.
Proof.
  intros Hi. destruct i; try discriminate Hi; cbn [step]; try done.
  - by destruct gum.
  - unfold initializeSocket. by destruct (socketRef st) as [[]|].
  - unfold createRoom. by destruct (socketRef st).
  - unfold joinRoom. by destruct (socketRef st).
  - unfold on_offer_timer.
    destruct (peerConnectionRef st), (localStreamRef st); try done.
    unfold createOffer.
    destruct (ensurePeerConnection_extend
                (tell (console ("Creating offer for user: " +:+ userId)) st))
      as (pre & -> & _).
    destruct (createOffer_result B _) as [o|]; [|done].
    destruct (setLocalDescription_ok B _ o); [|done].
    cbn [set_peerConnectionRef tell extend socketRef].
    by destruct (socketRef st).
  - unfold on_user_left.
    cbn [tell setConnectionStatus setRemoteStream peerConnectionRef].
    by destruct (peerConnectionRef st).
  - unfold on_offer, handleOffer.
    destruct (ensurePeerConnection_extend
                (tell (console ("Handling offer from: " +:+ senderId))
                   (tell (console ("Received offer from: " +:+ senderId)) st)))
      as (pre & -> & _).
    destruct (setRemoteDescription_ok B _ o); [|done].
    destruct (createAnswer_result B _) as [a|]; [|done].
    destruct (setLocalDescription_ok B _ a); [|done].
    cbn [set_peerConnectionRef tell extend socketRef].
    by destruct (socketRef st).
  - unfold on_answer, handleAnswer. cbn [tell peerConnectionRef].
    destruct (peerConnectionRef st) as [p|]; [|done].
    by destruct (setRemoteDescription_ok B p a).
  - unfold on_ice_candidate, handleIceCandidate. cbn [tell peerConnectionRef].
    destruct (peerConnectionRef st) as [p|]; [|done].
    by destruct (addIceCandidate_ok B p c).
  - unfold onicecandidate. destruct c; [|done]. by destruct (socketRef st).
  - unfold toggleScreenShare. destruct (isScreenSharing st); cbn [negb].
    + by destruct gum.
    + destruct display as [screenStream|]; [|done].
      cbn [tell peerConnectionRef localStreamRef].
      destruct (peerConnectionRef st) as [p|];
        [destruct (localStreamRef st) as [ls|];
         [destruct (find_index is_video_sender (senders p)) as [i|];
          [destruct (replaceTrack_ok B p i _)|]|]|];
        by destruct (head (getVideoTracks screenStream)).
  - unfold on_screen_share_ended. by destruct gum.
Qed.

Lemma run_users B st ins :
  Forall (λ i, is_room_joined i = false) ins →
  users (run B st ins) = users st.
Proof.
  intros Hins. revert st. induction Hins as [|i ins Hi _ IH]; intros st.
  - done.
  - unfold run in *. cbn [foldl]. by rewrite IH, step_users.
Qed.

(** X19. The participant list of the hook is the one received with
    [room-joined] and no later event changes it, a user joining or leaving
    included. So the remote tile keeps the name of the first member of that
    list (when its id is not "local" and its name is not empty): for the
    first member of a session, its own name. *)
Theorem X19_participant_list_is_stale B st rid u rest ini ins :
  Server.user_id u ≠ "local" → Server.user_name u ≠ "" →
  Forall (λ i, is_room_joined i = false) ins →
  let st' := run B (step B st (room_joined rid (u :: rest) ini)) ins in
  users st' = u :: rest
  ∧ Frontend.remote_user_name (users st') = Server.user_name u.
Proof.
  intros Hid Hname Hins st'.
  assert (users st' = u :: rest) as ->.
  { subst st'. by rewrite run_users. }
  split; [done|]. unfold Frontend.remote_user_name. cbn [find].
  rewrite bool_decide_eq_false_2 by done. cbn [negb default truthy].
  by rewrite decide_False.
Qed.

Lemma X19_participant_list_is_stale_witness :
  let first := Server.User "X" "Alice" 1 in
  let st' := run permissive
                 (step permissive ready (room_joined "abc123xy" [first] true))
                 [user_joined "Y" "Bob" 2; offer_from "o" "Y";
                  remote_track video camera; user_left "Y"] in
  users st' = [first]
  ∧ Frontend.remote_user_name (users st') = "Alice".
Proof.
  intros first.
  apply (X19_participant_list_is_stale permissive ready "abc123xy" first []
           true).
  - discriminate.
  - discriminate.
  - repeat constructor.
Defined.

End ClientExtras.

(* ===================================================================== *)
(** * Properties of the microphone and camera switches *)
(* ===================================================================== *)

Module ControlsExtras.
Import Client Controls.

Lemma elem_of_flip d t x :
  x ∈ flip d t ↔ (x = t ∧ t ∉ d) ∨ (x ≠ t ∧ x ∈ d).
Proof.
  unfold flip. case_decide as Ht.
  - rewrite list_elem_of_filter. split.
    + intros [? ?]. by right.
    + intros [[-> ?]|[? ?]]; done.
  - rewrite elem_of_cons. split.
    + intros [->|Hx]; [by left|]. right. split; [|done]. by intros ->.
    + intros [[-> _]|[_ ?]]; [by left | by right].
Qed.

Lemma flip_enabled d t x :
  bool_decide (x ∉ flip d t)
  = xorb (bool_decide (x = t)) (bool_decide (x ∉ d)).
Proof.
  destruct (decide (x = t)) as [->|Hne].
  - rewrite (bool_decide_eq_true_2 (t = t)) by done.
    destruct (decide (t ∈ d)) as [Hin|Hout].
    + rewrite (bool_decide_eq_false_2 (t ∉ d)) by auto.
      apply bool_decide_eq_true_2. rewrite elem_of_flip. by intros [[]|[]].
    + rewrite (bool_decide_eq_true_2 (t ∉ d)) by done.
      apply bool_decide_eq_false_2. rewrite elem_of_flip. intros H.
      apply H. by left.
  - rewrite (bool_decide_eq_false_2 (x = t)) by done. cbn.
    apply bool_decide_ext. rewrite elem_of_flip. split.
    + intros H Hx. apply H. by right.
    + intros H [[]|[]]; done.
Qed.

(** Flipping the tracks of [l] in turn: a track changes when it occurs an
    odd number of times. *)
Lemma foldl_flip_enabled l d x :
  bool_decide (x ∉ foldl flip d l)
  = xorb (Nat.odd (length (filter (λ t, t = x) l))) (bool_decide (x ∉ d)).
Proof.
  revert d. induction l as [|t l IH]; intros d; [done|].
  cbn [foldl]. rewrite IH, flip_enabled, filter_cons.
  case_decide as Ht.
  - subst t. rewrite (bool_decide_eq_true_2 (x = x)) by done.
    cbn [length]. rewrite Nat.odd_succ, <- Nat.negb_odd.
    by destruct (Nat.odd _), (bool_decide (x ∉ d)).
  - rewrite (bool_decide_eq_false_2 (x = t)) by auto. done.
Qed.

Lemma foldl_flip_other l d x :
  x ∉ l → bool_decide (x ∉ foldl flip d l) = bool_decide (x ∉ d).
Proof.
  intros Hx. rewrite foldl_flip_enabled.
  replace (filter (λ t, t = x) l) with (@nil track); [done|].
  symmetry. apply elem_of_nil_inv. intros t [-> ?]%list_elem_of_filter. done.
Qed.

Lemma foldl_flip_member l d x :
  NoDup l → x ∈ l →
  bool_decide (x ∉ foldl flip d l) = negb (bool_decide (x ∉ d)).
Proof.
  intros Hl Hx. rewrite foldl_flip_enabled.
  replace (length (filter (λ t, t = x) l)) with 1; [done|].
  induction Hl as [|t l Ht Hl IH]; [by apply elem_of_nil in Hx|].
  rewrite filter_cons. case_decide as Heq.
  - subst t. cbn. f_equal. symmetry. apply length_zero_iff_nil, elem_of_nil_inv.
    intros t [-> ?]%list_elem_of_filter. done.
  - apply elem_of_cons in Hx as [->|Hx]; [done|]. by apply IH.
Qed.

(** X20. With a local stream whose tracks are distinct, [toggleAudio]
    negates the audio flag and the [enabled] property of every audio track of
    the stream, and leaves the video flag and every other track as they
    were; [toggleVideo] does the same for video. Without a local stream both
    do nothing. *)
Theorem X20_switches_flip_their_kind st c s :
  localStreamRef st = Some s → NoDup s →
  (isAudioEnabled (toggleAudio st c) = negb (isAudioEnabled c)
   ∧ isVideoEnabled (toggleAudio st c) = isVideoEnabled c
   ∧ ∀ t, enabled (toggleAudio st c) t
          = if decide (t ∈ s ∧ track_kind t = audio)
            then negb (enabled c t) else enabled c t)
  ∧ (isVideoEnabled (toggleVideo st c) = negb (isVideoEnabled c)
     ∧ isAudioEnabled (toggleVideo st c) = isAudioEnabled c
     ∧ ∀ t, enabled (toggleVideo st c) t
            = if decide (t ∈ s ∧ track_kind t = video)
              then negb (enabled c t) else enabled c t).
Proof.
  intros Hs Hnd. unfold toggleAudio, toggleVideo, enabled. rewrite Hs.
  cbn [isAudioEnabled isVideoEnabled disabled].
  split; (split; [done|]; split; [done|]); intros t; case_decide as Ht.
  - apply foldl_flip_member; [by apply NoDup_filter|].
    apply list_elem_of_filter. tauto.
  - apply foldl_flip_other. intros [? ?]%list_elem_of_filter. tauto.
  - apply foldl_flip_member; [by apply NoDup_filter|].
    apply list_elem_of_filter. tauto.
  - apply foldl_flip_other. intros [? ?]%list_elem_of_filter. tauto.
Qed.

Lemma X20_switches_flip_their_kind_witness :
  (isAudioEnabled (toggleAudio ready initial) = negb (isAudioEnabled initial)
   ∧ isVideoEnabled (toggleAudio ready initial) = isVideoEnabled initial
   ∧ ∀ t, enabled (toggleAudio ready initial) t
          = if decide (t ∈ camera ∧ track_kind t = audio)
            then negb (enabled initial t) else enabled initial t)
  ∧ (isVideoEnabled (toggleVideo ready initial) = negb (isVideoEnabled initial)
     ∧ isAudioEnabled (toggleVideo ready initial) = isAudioEnabled initial
     ∧ ∀ t, enabled (toggleVideo ready initial) t
            = if decide (t ∈ camera ∧ track_kind t = video)
              then negb (enabled initial t) else enabled initial t).
Proof.
  apply (X20_switches_flip_their_kind ready initial camera).
  - reflexivity.
  - apply (bool_decide_unpack _). vm_compute; reflexivity.
Defined.

(** X21. Switching the microphone, or the camera, twice brings back the
    flags and the [enabled] property of every track, as long as the local
    stream is the same; and a switch without a local stream changes
    nothing. *)
Theorem X21_switch_twice st c :
  (∀ t, enabled (toggleAudio st (toggleAudio st c)) t = enabled c t)
  ∧ isAudioEnabled (toggleAudio st (toggleAudio st c)) = isAudioEnabled c
  ∧ isVideoEnabled (toggleAudio st (toggleAudio st c)) = isVideoEnabled c
  ∧ (∀ t, enabled (toggleVideo st (toggleVideo st c)) t = enabled c t)
  ∧ isVideoEnabled (toggleVideo st (toggleVideo st c)) = isVideoEnabled c
  ∧ isAudioEnabled (toggleVideo st (toggleVideo st c)) = isAudioEnabled c
  ∧ (localStreamRef st = None → toggleAudio st c = c ∧ toggleVideo st c = c).
Proof.
  unfold toggleAudio, toggleVideo, enabled.
  destruct (localStreamRef st) as [s|]; [|done].
  cbn [isAudioEnabled isVideoEnabled disabled]. rewrite !negb_involutive.
  repeat split; try done; intros t; rewrite !foldl_flip_enabled;
    by destruct (Nat.odd _), (bool_decide (t ∉ disabled c)).
Qed.

Lemma X21_switch_twice_witness :
  toggleAudio Client.initial initial = initial
  ∧ toggleVideo Client.initial initial = initial.
Proof. apply (X21_switch_twice Client.initial initial). reflexivity. Defined.

End ControlsExtras.
